(** * Verification of the Lilith agent core (lilith-on-vae/agent.go)

    A shallow embedding of the task processor, the tiered memory store and the
    agent lifecycle, followed by the properties established about them.

    Conventions used throughout the embedding:
    - a Go [int] is a [Z]; arithmetic that can overflow goes through
      [GoInt.wrap64];
    - a [time.Time] is the number of nanoseconds since Go's zero instant
      (January 1, year 1, 00:00:00 UTC), a [time.Duration] is a 64-bit count
      of nanoseconds;
    - every call of [time.Now()] in the source is an explicit clock-reading
      argument of the corresponding definition;
    - a Go [map] is a [gmap]; where the source ranges over a map, the order of
      the visit is an explicit argument, because Go leaves it unspecified;
    - a [float64] is a primitive binary64 float. *)

From Stdlib Require Import ZArith Floats Uint63 Sorting.Sorted.
From stdpp Require Import gmap strings list fin_maps sorting pretty.

Local Open Scope Z_scope.

(* ===================================================================== *)
(** * Part I: definitions *)
(* ===================================================================== *)

(** ** Go machine integers *)
Module GoInt.

Definition min_int64 : Z := - 2 ^ 63.
Definition max_int64 : Z := 2 ^ 63 - 1.

(** Two's complement wrap-around of a 64-bit signed integer. *)
Definition wrap64 (z : Z) : Z := (z + 2 ^ 63) mod 2 ^ 64 - 2 ^ 63.

(** [x++] on an [int]. *)
Definition incr (z : Z) : Z := wrap64 (z + 1).

Definition in_range (z : Z) : Prop := min_int64 <= z <= max_int64.

End GoInt.

(** ** package time *)
Module GoTime.

Definition Time := Z.
Definition Duration := Z.

Definition Nanosecond : Duration := 1.
Definition Second : Duration := 1000000000.
Definition Minute : Duration := 60 * Second.
Definition Hour : Duration := 60 * Minute.

Definition minDuration : Duration := GoInt.min_int64.
Definition maxDuration : Duration := GoInt.max_int64.

(** [t.IsZero()] *)
Definition IsZero (t : Time) : bool := t =? 0.
(** [t.Before(u)] and [t.After(u)] *)
Definition Before (t u : Time) : bool := t <? u.
Definition After (t u : Time) : bool := u <? t.

(** [t.Sub(u)]: the difference, saturated to the range of a Duration. *)
Definition Sub (t u : Time) : Duration :=
  if t - u <? minDuration then minDuration
  else if maxDuration <? t - u then maxDuration
  else t - u.

(** [t.Add(d)] *)
Definition Add (t : Time) (d : Duration) : Time := t + d.

(** [time.Since(t)] and [time.Until(t)], given the reading of [time.Now()]. *)
Definition Since (now t : Time) : Duration := Sub now t.
Definition Until (now t : Time) : Duration := Sub t now.

(** Nanoseconds between the zero instant and the Unix epoch. *)
Definition unixEpoch : Z := 62135596800 * 1000000000.
(** [t.UnixNano()] *)
Definition UnixNano (t : Time) : Z := GoInt.wrap64 (t - unixEpoch).

End GoTime.

(** ** float64 *)
Module GoFloat.

(** [float64(z)] for a 64-bit signed integer [z] (round to nearest even). *)
Definition of_int (z : Z) : float :=
  if z =? GoInt.min_int64 then
    PrimFloat.opp (PrimFloat.mul (PrimFloat.of_uint63 (Uint63.of_Z (2 ^ 62)))
                                 (PrimFloat.of_uint63 (Uint63.of_Z 2)))
  else if z <? 0 then PrimFloat.opp (PrimFloat.of_uint63 (Uint63.of_Z (- z)))
  else PrimFloat.of_uint63 (Uint63.of_Z z).

(** [d.Seconds()]:
    [sec := d / Second; nsec := d % Second;
     return float64(sec) + float64(nsec)/1e9]
    with Go's truncating division. *)
Definition Seconds (d : GoTime.Duration) : float :=
  let sec := Z.quot d GoTime.Second in
  let nsec := Z.rem d GoTime.Second in
  PrimFloat.add (of_int sec) (PrimFloat.div (of_int nsec) (of_int 1000000000)).

End GoFloat.

(** ** package sort

    [insertion_sort] follows Go's [insertionSort]: every element in turn is
    swapped leftwards while it is [less] than its left neighbour.  This is the
    code [sort.Slice] runs on slices of at most 12 elements and
    [sort.SliceStable] on slices of at most 20; it is stable, and for a
    [less] that is a strict weak order every stable sort returns the same
    list. *)
Module GoSort.
Section Sort.
Context {A : Type} (less : A → A → bool).

(** [sift x rp]: [rp] is the already sorted prefix, nearest element first;
    [x] moves left past every neighbour it is less than. *)
Fixpoint sift (x : A) (rp : list A) : list A :=
  match rp with
  | [] => [x]
  | y :: rp' => if less x y then y :: sift x rp' else x :: y :: rp'
  end.

Definition insertion_sort (l : list A) : list A :=
  rev (fold_left (fun rp x => sift x rp) l []).

(** [a] may stand before [b] in a sorted slice. *)
Definition may_precede (a b : A) : Prop := less b a = false.

(** The sorted prefix during the sort, nearest element first. *)
Definition prefix_sorted (rp : list A) : Prop :=
  StronglySorted (λ a b, less a b = false) rp.
End Sort.
End GoSort.

(** ** The agent core *)
Section Model.
(** The values the core stores and passes around without looking inside
    them ([interface{}] in the source). *)
Context {Any : Type}.

Import GoTime.

(** *** Errors *)
Inductive error :=
| ErrAgentAlreadyRunning
| ErrAgentNotRunning
| ErrUnknownTaskType (taskType : string)   (* "%w: %s", ErrUnknownTaskType *)
| ErrTaskExpired (taskID : string)         (* "task expired: %s" *)
| ErrContextCanceled                       (* context.Canceled *)
| ErrContextDeadlineExceeded               (* context.DeadlineExceeded *)
| ErrMemoryNotFound
| ErrMemoryExpired
| ErrInvalidMemoryType
| ErrInvalidConfig (msg : string)
| ErrHandler (msg : string).               (* whatever a handler returns *)

(** *** package context, as far as the processor uses it *)
Record Context := {
  ctxErr : option error;          (* [ctx.Err()]; [Some _] once Done is closed *)
  ctxDeadline : option Time
}.

Definition ctxDone (ctx : Context) : bool := bool_decide (is_Some (ctxErr ctx)).

Definition Background : Context := {| ctxErr := None; ctxDeadline := None |}.

(** The [cancel] function returned by [context.WithCancel]. *)
Definition cancel (ctx : Context) : Context :=
  match ctxErr ctx with
  | Some _ => ctx
  | None => {| ctxErr := Some ErrContextCanceled; ctxDeadline := ctxDeadline ctx |}
  end.

(** [context.WithTimeout(parent, timeout)] with [now] the reading of the
    clock inside it: an earlier deadline of the parent is kept, a done
    parent makes the child done, and a deadline that has already passed
    cancels the child at once. *)
Definition WithTimeout (parent : Context) (timeout : Duration) (now : Time) : Context :=
  let d := Add now timeout in
  match ctxDeadline parent with
  | Some cur =>
      if Before cur d then parent
      else {| ctxErr := match ctxErr parent with
                        | Some e => Some e
                        | None => if Until now d <=? 0 then Some ErrContextDeadlineExceeded else None
                        end;
              ctxDeadline := Some d |}
  | None =>
      {| ctxErr := match ctxErr parent with
                   | Some e => Some e
                   | None => if Until now d <=? 0 then Some ErrContextDeadlineExceeded else None
                   end;
         ctxDeadline := Some d |}
  end.

(** *** Configuration (the fields the core reads) *)
Record Config := {
  Name : string;
  ProcessInterval : Duration;
  MaxShortTermMemory : Z;
  MaxLongTermMemory : Z;
  MaxConcurrentTasks : Z;
  TaskTimeout : Duration;
  EnableEncryption : bool;
  EncryptionKey : string
}.

Definition DefaultProcessInterval : Duration := 100 * 1000000.
Definition DefaultMaxShortTermMemory : Z := 10000.
Definition DefaultMaxLongTermMemory : Z := 100000.
Definition DefaultMaxConcurrentTasks : Z := 10.
Definition DefaultTaskTimeout : Duration := 30 * Second.

Definition NewDefaultConfig : Config := {|
  Name := "lilith";
  ProcessInterval := DefaultProcessInterval;
  MaxShortTermMemory := DefaultMaxShortTermMemory;
  MaxLongTermMemory := DefaultMaxLongTermMemory;
  MaxConcurrentTasks := DefaultMaxConcurrentTasks;
  TaskTimeout := DefaultTaskTimeout;
  EnableEncryption := false;
  EncryptionKey := ""
|}.

(** [Config.Validate]: [None] is the nil error. *)
Definition Validate (c : Config) : option error :=
  if String.eqb (Name c) "" then Some (ErrInvalidConfig "name cannot be empty")
  else if ProcessInterval c <? 10 * 1000000 then
    Some (ErrInvalidConfig "process interval too small (minimum 10ms)")
  else if MaxConcurrentTasks c <? 1 then
    Some (ErrInvalidConfig "max concurrent tasks must be at least 1")
  else if TaskTimeout c <? Second then
    Some (ErrInvalidConfig "task timeout must be at least 1 second")
  else if EnableEncryption c && String.eqb (EncryptionKey c) "" then
    Some (ErrInvalidConfig "encryption key required when encryption is enabled")
  else None.

(** *** Memory *)
Record MemoryItem := {
  Value : Any;
  ItemCreatedAt : Time;
  ExpiresAt : option Time;
  AccessCount : Z;
  LastAccess : Time;
  ItemPriority : Z
}.

Record MemoryStore := {
  data : gmap string MemoryItem;
  maxSize : Z;
  persistent : bool
}.

Definition NewMemoryStore (maxSize : Z) (persistent : bool) : MemoryStore :=
  {| data := ∅; maxSize := maxSize; persistent := persistent |}.

Definition with_data (m : MemoryStore) (d : gmap string MemoryItem) : MemoryStore :=
  {| data := d; maxSize := maxSize m; persistent := persistent m |}.

(** [len(m.data)] *)
Definition len_data (d : gmap string MemoryItem) : Z := Z.of_nat (size d).

(** [item.ExpiresAt != nil] and [now] is after the instant it points to. *)
Definition is_expired (now : Time) (item : MemoryItem) : bool :=
  match ExpiresAt item with
  | Some e => After now e
  | None => false
  end.

(** The retention score of [cleanup]:
    [float64(item.Priority) * float64(item.AccessCount) /
     time.Since(item.LastAccess).Seconds()]. *)
Definition score (now : Time) (item : MemoryItem) : float :=
  PrimFloat.div
    (PrimFloat.mul (GoFloat.of_int (ItemPriority item)) (GoFloat.of_int (AccessCount item)))
    (GoFloat.Seconds (Since now (LastAccess item))).

(** What one run of [cleanup] reads from outside the store: the clock at
    its start, and for the scoring loop the keys in the order the [range]
    visits them, each with the clock reading of its [time.Since]. *)
Record CleanupRun := {
  cleanupNow : Time;
  scoreVisits : list (string * Time)
}.

(** [visits] is a possible [range] over [d]: every key exactly once. *)
Definition is_range (visits : list (string * Time)) (d : gmap string MemoryItem) : Prop :=
  visits.*1 ≡ₚ (map_to_list d).*1.

(** First loop of [cleanup]: every expired item is deleted. The result does
    not depend on the order of the visit. *)
Definition remove_expired (now : Time) (d : gmap string MemoryItem) : gmap string MemoryItem :=
  filter (λ kv, is_expired now kv.2 = false) d.

(** Second loop: the [items] slice. *)
Definition score_items (visits : list (string * Time)) (d : gmap string MemoryItem)
  : list (string * float) :=
  omap (λ '(key, now), (λ item, (key, score now item)) <$> d !! key) visits.

(** [items[i].score < items[j].score] *)
Definition score_less (a b : string * float) : bool := PrimFloat.ltb a.2 b.2.

(** [for i := 0; i < len(items) && len(m.data) >= m.maxSize; i++
      { delete(m.data, items[i].key) }] *)
Fixpoint evict (cap : Z) (items : list (string * float)) (d : gmap string MemoryItem)
  : gmap string MemoryItem :=
  match items with
  | [] => d
  | (key, _) :: rest =>
      if cap <=? len_data d then evict cap rest (delete key d) else d
  end.

Definition cleanup (m : MemoryStore) (run : CleanupRun) : MemoryStore :=
  let d := remove_expired (cleanupNow run) (data m) in
  if maxSize m <=? len_data d then
    let items := score_items (scoreVisits run) d in
    let items := GoSort.insertion_sort score_less items in
    with_data m (evict (maxSize m) items d)
  else with_data m d.

(** [MemoryStore.Set] *)
Definition Set_ (m : MemoryStore) (key : string) (item : MemoryItem) (run : CleanupRun)
  : option error * MemoryStore :=
  let m := if maxSize m <=? len_data (data m) then cleanup m run else m in
  (None, with_data m (<[key := item]> (data m))).

(** [MemoryStore.Get]; [nowCheck] and [nowAccess] are its two clock readings. *)
Definition Get (m : MemoryStore) (key : string) (nowCheck nowAccess : Time)
  : (error + Any) * MemoryStore :=
  match data m !! key with
  | None => (inl ErrMemoryNotFound, m)
  | Some item =>
      if is_expired nowCheck item then
        (inl ErrMemoryExpired, with_data m (delete key (data m)))
      else
        let item := {| Value := Value item;
                       ItemCreatedAt := ItemCreatedAt item;
                       ExpiresAt := ExpiresAt item;
                       AccessCount := GoInt.incr (AccessCount item);
                       LastAccess := nowAccess;
                       ItemPriority := ItemPriority item |} in
        (inr (Value item), with_data m (<[key := item]> (data m)))
  end.

(** [MemoryStore.Delete] *)
Definition Delete (m : MemoryStore) (key : string) : option error * MemoryStore :=
  match data m !! key with
  | None => (Some ErrMemoryNotFound, m)
  | Some _ => (None, with_data m (delete key (data m)))
  end.

(** *** State *)
Inductive Status := StatusIdle | StatusWorking | StatusError | StatusStopped.

Record State := {
  Status_ : Status;
  LastError : option error;
  LastUpdated : Time;
  ShortTerm : MemoryStore;
  LongTerm : MemoryStore;
  Volatile : MemoryStore;
  TasksProcessed : Z;
  LastActivity : Time
}.

(** [MemoryType] is an [int] with three named values. *)
Definition MemoryType := Z.
Definition MemoryTypeShortTerm : MemoryType := 0.
Definition MemoryTypeLongTerm : MemoryType := 1.
Definition MemoryTypeVolatile : MemoryType := 2.

Definition NewState (config : Config) (now : Time) : State := {|
  Status_ := StatusIdle;
  LastError := None;
  LastUpdated := now;
  ShortTerm := NewMemoryStore (MaxShortTermMemory config) false;
  LongTerm := NewMemoryStore (MaxLongTermMemory config) true;
  Volatile := NewMemoryStore 1000 false;
  TasksProcessed := 0;
  LastActivity := 0
|}.

(** The [switch memoryType] shared by [Remember], [Recall] and [Forget]. *)
Definition store_of (s : State) (memoryType : MemoryType) : option MemoryStore :=
  if memoryType =? MemoryTypeShortTerm then Some (ShortTerm s)
  else if memoryType =? MemoryTypeLongTerm then Some (LongTerm s)
  else if memoryType =? MemoryTypeVolatile then Some (Volatile s)
  else None.

(** The stores are held by pointer: a change of the chosen store is a change
    of the state. *)
Definition with_store (s : State) (memoryType : MemoryType) (m : MemoryStore) : State := {|
  Status_ := Status_ s;
  LastError := LastError s;
  LastUpdated := LastUpdated s;
  ShortTerm := if memoryType =? MemoryTypeShortTerm then m else ShortTerm s;
  LongTerm := if memoryType =? MemoryTypeLongTerm then m else LongTerm s;
  Volatile := if memoryType =? MemoryTypeVolatile then m else Volatile s;
  TasksProcessed := TasksProcessed s;
  LastActivity := LastActivity s
|}.

(** The item [Remember] builds; its three clock readings are those of the
    expiry, of [CreatedAt] and of [LastAccess]. *)
Definition remembered_item (value : Any) (ttl : Duration) (tExpiry tCreated tAccess : Time)
  : MemoryItem := {|
  Value := value;
  ItemCreatedAt := tCreated;
  ExpiresAt := if 0 <? ttl then Some (Add tExpiry ttl) else None;
  AccessCount := 0;
  LastAccess := tAccess;
  ItemPriority := 1
|}.

(** [State.Remember] *)
Definition Remember (s : State) (key : string) (value : Any) (memoryType : MemoryType)
    (ttl : Duration) (tExpiry tCreated tAccess : Time) (run : CleanupRun)
  : option error * State :=
  match store_of s memoryType with
  | None => (Some ErrInvalidMemoryType, s)
  | Some store =>
      let item := remembered_item value ttl tExpiry tCreated tAccess in
      let '(err, store) := Set_ store key item run in
      (err, with_store s memoryType store)
  end.

(** [State.Recall] *)
Definition Recall (s : State) (key : string) (memoryType : MemoryType)
    (nowCheck nowAccess : Time) : (error + Any) * State :=
  match store_of s memoryType with
  | None => (inl ErrInvalidMemoryType, s)
  | Some store =>
      let '(r, store) := Get store key nowCheck nowAccess in
      (r, with_store s memoryType store)
  end.

(** [State.Forget] *)
Definition Forget (s : State) (key : string) (memoryType : MemoryType)
  : option error * State :=
  match store_of s memoryType with
  | None => (Some ErrInvalidMemoryType, s)
  | Some store =>
      let '(err, store) := Delete store key in
      (err, with_store s memoryType store)
  end.

(** [State.UpdateStatus] *)
Definition UpdateStatus (s : State) (status : Status) (tUpdated tActivity : Time) : State := {|
  Status_ := status;
  LastError := LastError s;
  LastUpdated := tUpdated;
  ShortTerm := ShortTerm s;
  LongTerm := LongTerm s;
  Volatile := Volatile s;
  TasksProcessed := TasksProcessed s;
  LastActivity := tActivity
|}.

Definition with_LastError (s : State) (err : option error) : State := {|
  Status_ := Status_ s;
  LastError := err;
  LastUpdated := LastUpdated s;
  ShortTerm := ShortTerm s;
  LongTerm := LongTerm s;
  Volatile := Volatile s;
  TasksProcessed := TasksProcessed s;
  LastActivity := LastActivity s
|}.

(** *** Tasks and the processor *)
Record Task := {
  ID : string;
  Type_ : string;
  Priority : Z;
  Data : gmap string Any;
  CreatedAt : Time;
  StartedAt : option Time;
  Deadline : option Time;
  Attempts : Z
}.

Definition TaskHandler := Context → State → Task → option error * State.

Record TaskResult := {
  TaskID : string;
  Success : bool;
  Error : option error;
  StartTime : Time;
  EndTime : Time
}.

(** [semaphore chan struct{}]: a buffered channel, of which only the
    capacity and the number of buffered tokens matter. *)
Record Semaphore := {
  semCap : Z;
  semLen : nat
}.

(** A send goes through without blocking when the buffer has room. *)
Definition can_send (s : Semaphore) : bool := Z.of_nat (semLen s) <? semCap s.
Definition send (s : Semaphore) : Semaphore := {| semCap := semCap s; semLen := S (semLen s) |}.
Definition recv (s : Semaphore) : Semaphore := {| semCap := semCap s; semLen := pred (semLen s) |}.

Record Processor := {
  tasks : list Task;
  handlers : gmap string TaskHandler;
  semaphore : Semaphore
}.

(** [NewProcessor]; [make(chan struct{}, n)] panics for a negative [n]. *)
Definition NewProcessor (config : Config) : option Processor :=
  if MaxConcurrentTasks config <? 0 then None
  else Some {| tasks := [];
               handlers := ∅;
               semaphore := {| semCap := MaxConcurrentTasks config; semLen := 0 |} |}.

Definition with_tasks (p : Processor) (ts : list Task) : Processor :=
  {| tasks := ts; handlers := handlers p; semaphore := semaphore p |}.

Definition with_semaphore (p : Processor) (s : Semaphore) : Processor :=
  {| tasks := tasks p; handlers := handlers p; semaphore := s |}.

(** The [less] of [sortTasks]: higher priority first, then earlier
    creation time. *)
Definition task_less (a b : Task) : bool :=
  if negb (Priority a =? Priority b) then Priority b <? Priority a
  else Before (CreatedAt a) (CreatedAt b).

(** [Processor.sortTasks] *)
Definition sortTasks (p : Processor) : Processor :=
  with_tasks p (GoSort.insertion_sort task_less (tasks p)).

(** The task as [AddTask] completes it: [tID] and [tCreated] are the clock
    readings for the generated id and for [CreatedAt]. *)
Definition stamp (task : Task) (tID tCreated : Time) : Task := {|
  ID := if String.eqb (ID task) "" then "task-" +:+ pretty (UnixNano tID) else ID task;
  Type_ := Type_ task;
  Priority := Priority task;
  Data := Data task;
  CreatedAt := if IsZero (CreatedAt task) then tCreated else CreatedAt task;
  StartedAt := StartedAt task;
  Deadline := Deadline task;
  Attempts := Attempts task
|}.

(** [Processor.AddTask] *)
Definition AddTask (p : Processor) (task : Task) (tID tCreated : Time)
  : option error * Processor :=
  let task := stamp task tID tCreated in
  let p := with_tasks p (tasks p ++ [task]) in
  (None, sortTasks p).

(** [Processor.RegisterHandler] *)
Definition RegisterHandler (p : Processor) (taskType : string) (handler : TaskHandler)
  : Processor :=
  {| tasks := tasks p; handlers := <[taskType := handler]> (handlers p);
     semaphore := semaphore p |}.

(** [Processor.getTaskTimeout]; [now] is the clock reading of [time.Until]. *)
Definition getTaskTimeout (task : Task) (now : Time) : Duration :=
  match Deadline task with
  | Some d => Until now d
  | None => DefaultTaskTimeout
  end.

(** What a call of [Process] does that can be seen from outside. *)
Inductive Event :=
| EvAcquire                                   (* a slot of the semaphore is taken *)
| EvInvoke (taskCtx : Context) (timeout : Duration) (task : Task)  (* the handler runs *)
| EvResult (result : TaskResult)              (* handleTaskResult *)
| EvRelease.                                  (* the slot is given back *)

(** The clock readings of one call of [Process], in program order. *)
Record ProcessClock := {
  tExpiry : Time;     (* the expiry check *)
  tStart : Time;      (* startTime *)
  tUntil : Time;      (* time.Until in getTaskTimeout *)
  tCtx : Time;        (* inside context.WithTimeout *)
  tEnd : Time         (* EndTime *)
}.

(** [Processor.executeTask] *)
Definition executeTask (p : Processor) (ctx : Context) (state : State) (task : Task)
    (clk : ProcessClock) : option error * State * list Event :=
  match handlers p !! Type_ task with
  | None => (Some (ErrUnknownTaskType (Type_ task)), state, [])
  | Some handler =>
      let task := {| ID := ID task; Type_ := Type_ task; Priority := Priority task;
                     Data := Data task; CreatedAt := CreatedAt task;
                     StartedAt := Some (tStart clk);
                     Deadline := Deadline task;
                     Attempts := GoInt.incr (Attempts task) |} in
      let timeout := getTaskTimeout task (tUntil clk) in
      let taskCtx := WithTimeout ctx timeout (tCtx clk) in
      let '(err, state) := handler taskCtx state task in
      let result := {| TaskID := ID task;
                       Success := bool_decide (err = None);
                       Error := err;
                       StartTime := tStart clk;
                       EndTime := tEnd clk |} in
      (err, state, [EvInvoke taskCtx timeout task; EvResult result])
  end.

(** Which case a [select] takes when both are ready is up to the runtime. *)
Inductive Pick := PickFirst | PickSecond.

(** A call either returns an error value or is still waiting in its
    [select], with neither case ready. *)
Inductive Outcome :=
| Returned (err : option error)
| Blocked.

(** [task.Deadline != nil] and the clock is after it. *)
Definition deadline_passed (task : Task) (now : Time) : bool :=
  match Deadline task with
  | Some d => After now d
  | None => false
  end.

(** [Processor.Process].  The semaphore is the one found when the call
    reaches its [select]; the slot taken is given back by the deferred
    receive before the call returns. *)
Definition Process (p : Processor) (ctx : Context) (state : State)
    (clk : ProcessClock) (pick : Pick)
  : Outcome * Processor * State * list Event :=
  match tasks p with
  | [] => (Returned None, p, state, [])
  | task :: rest =>
      let p := with_tasks p rest in
      if deadline_passed task (tExpiry clk) then
        (Returned (Some (ErrTaskExpired (ID task))), p, state, [])
      else
        let run :=
          let p := with_semaphore p (send (semaphore p)) in
          let '(err, state, evs) := executeTask p ctx state task clk in
          let p := with_semaphore p (recv (semaphore p)) in
          (Returned err, p, state, EvAcquire :: evs ++ [EvRelease]) in
        let quit := (Returned (ctxErr ctx), p, state, []) in
        match can_send (semaphore p), ctxDone ctx with
        | true, false => run
        | false, true => quit
        | true, true => match pick with PickFirst => run | PickSecond => quit end
        | false, false => (Blocked, p, state, [])
        end
  end.

(** *** The agent *)
Record Agent := {
  AgentID : string;
  ctx : Context;
  config : Config;
  processor : Processor;
  state : State;
  isRunning : bool;
  startTime : Time
}.

(** [handleHealthCheck] and [handleReset] *)
Definition handleHealthCheck : TaskHandler := λ _ state _, (None, state).
Definition handleReset : TaskHandler := λ _ state _, (None, state).

(** [NewAgent].  The source calls [NewProcessor()] and [NewState()] without
    arguments although both are declared with the configuration as a
    parameter; the embedding passes the agent's configuration. *)
Definition NewAgent (config : Config) (now : Time) : error + Agent :=
  match Validate config with
  | Some err => inl err
  | None =>
      match NewProcessor config with
      | None => inl (ErrInvalidConfig "max concurrent tasks must be at least 1")
      | Some p =>
          let p := RegisterHandler p "system.health" handleHealthCheck in
          let p := RegisterHandler p "system.reset" handleReset in
          inr {| AgentID := "lilith-" +:+ pretty (UnixNano now);
                 ctx := Background;
                 config := config;
                 processor := p;
                 state := NewState config now;
                 isRunning := false;
                 startTime := 0 |}
      end
  end.

(** [Agent.Start]; the two goroutines it launches are part of [System]. *)
Definition Start (a : Agent) (tStart tUpdated tActivity : Time) : option error * Agent :=
  if isRunning a then (Some ErrAgentAlreadyRunning, a)
  else (None, {| AgentID := AgentID a; ctx := ctx a; config := config a;
                 processor := processor a;
                 state := UpdateStatus (state a) StatusWorking tUpdated tActivity;
                 isRunning := true;
                 startTime := tStart |}).

(** [Agent.Stop] *)
Definition Stop (a : Agent) (tUpdated tActivity : Time) : option error * Agent :=
  if negb (isRunning a) then (Some ErrAgentNotRunning, a)
  else (None, {| AgentID := AgentID a; ctx := cancel (ctx a); config := config a;
                 processor := processor a;
                 state := UpdateStatus (state a) StatusStopped tUpdated tActivity;
                 isRunning := false;
                 startTime := startTime a |}).

(** [Agent.AddTask] *)
Definition Agent_AddTask (a : Agent) (task : Task) (tID tCreated : Time)
  : option error * Agent :=
  if negb (isRunning a) then (Some ErrAgentNotRunning, a)
  else
    let '(_, p) := AddTask (processor a) task tID tCreated in
    (None, {| AgentID := AgentID a; ctx := ctx a; config := config a;
              processor := p; state := state a;
              isRunning := isRunning a; startTime := startTime a |}).

Definition with_work (a : Agent) (p : Processor) (s : State) : Agent :=
  {| AgentID := AgentID a; ctx := ctx a; config := config a;
     processor := p; state := s;
     isRunning := isRunning a; startTime := startTime a |}.

(** Modelled from the spec: [State.CleanupExpiredMemory], which
    [Agent.memoryCleanup] calls, is not part of the source; the spec
    describes it as a cleanup sweep across all three stores. *)
Definition CleanupExpiredMemory (s : State) (runShort runLong runVolatile : CleanupRun)
  : State := {|
  Status_ := Status_ s;
  LastError := LastError s;
  LastUpdated := LastUpdated s;
  ShortTerm := cleanup (ShortTerm s) runShort;
  LongTerm := cleanup (LongTerm s) runLong;
  Volatile := cleanup (Volatile s) runVolatile;
  TasksProcessed := TasksProcessed s;
  LastActivity := LastActivity s
|}.

(** *** The agent with its background goroutines

    [Agent.run] and [Agent.memoryCleanup] are loops around a [select]
    between [ctx.Done()] and the channel of a ticker of their own.  A loop
    is waiting at its [select] (with or without a tick buffered in the
    ticker's channel), is inside a call of [Process] that waits for a slot,
    or has returned. *)
Inductive Loop :=
| AtSelect (tick : bool)
| InProcess (tick : bool)
| Exited.

(** What an observer of the agent sees, oldest first. *)
Inductive Observed :=
| StartReturned (err : option error)
| StopReturned (err : option error)
| AddTaskReturned (err : option error)
| ProcessStarted                      (* the run loop calls Processor.Process *)
| ProcessEvents (evs : list Event)
| SweepStarted                        (* the cleanup loop calls CleanupExpiredMemory *)
| RunLoopExited
| CleanupLoopExited.

Record System := {
  agent : Agent;
  runLoops : list Loop;
  cleanupLoops : list Loop;
  observed : list Observed
}.

Definition boot (a : Agent) : System :=
  {| agent := a; runLoops := []; cleanupLoops := []; observed := [] |}.

Definition set_tick (l : Loop) : Loop :=
  match l with
  | AtSelect _ => AtSelect true
  | InProcess _ => InProcess true
  | Exited => Exited
  end.

(** One step of the agent and its goroutines.  A [select] with several
    ready cases takes any of them. *)
Inductive step : System → System → Prop :=
| step_Start sys tStart tUpdated tActivity err a :
    Start (agent sys) tStart tUpdated tActivity = (err, a) →
    step sys {| agent := a;
                runLoops := runLoops sys ++ (if err is None then [AtSelect false] else []);
                cleanupLoops := cleanupLoops sys ++ (if err is None then [AtSelect false] else []);
                observed := observed sys ++ [StartReturned err] |}
| step_Stop sys tUpdated tActivity err a :
    Stop (agent sys) tUpdated tActivity = (err, a) →
    step sys {| agent := a; runLoops := runLoops sys; cleanupLoops := cleanupLoops sys;
                observed := observed sys ++ [StopReturned err] |}
| step_AddTask sys task tID tCreated err a :
    Agent_AddTask (agent sys) task tID tCreated = (err, a) →
    step sys {| agent := a; runLoops := runLoops sys; cleanupLoops := cleanupLoops sys;
                observed := observed sys ++ [AddTaskReturned err] |}
(* a ticker fires; its channel buffers one tick *)
| step_run_tick sys i l :
    runLoops sys !! i = Some l →
    step sys {| agent := agent sys; runLoops := <[i := set_tick l]> (runLoops sys);
                cleanupLoops := cleanupLoops sys; observed := observed sys |}
| step_cleanup_tick sys i l :
    cleanupLoops sys !! i = Some l →
    step sys {| agent := agent sys; runLoops := runLoops sys;
                cleanupLoops := <[i := set_tick l]> (cleanupLoops sys);
                observed := observed sys |}
(* Agent.run, case <-ticker.C, Process returns *)
| step_run_process sys i clk pick err p s evs :
    runLoops sys !! i = Some (AtSelect true) →
    Process (processor (agent sys)) (ctx (agent sys)) (state (agent sys)) clk pick
      = (Returned err, p, s, evs) →
    step sys {| agent := with_work (agent sys) p
                           (if err is Some _ then with_LastError s err else s);
                runLoops := <[i := AtSelect false]> (runLoops sys);
                cleanupLoops := cleanupLoops sys;
                observed := observed sys ++ [ProcessStarted; ProcessEvents evs] |}
(* Agent.run, case <-ticker.C, Process waits for a slot *)
| step_run_process_blocks sys i clk pick p s evs :
    runLoops sys !! i = Some (AtSelect true) →
    Process (processor (agent sys)) (ctx (agent sys)) (state (agent sys)) clk pick
      = (Blocked, p, s, evs) →
    step sys {| agent := with_work (agent sys) p s;
                runLoops := <[i := InProcess false]> (runLoops sys);
                cleanupLoops := cleanupLoops sys;
                observed := observed sys ++ [ProcessStarted] |}
(* the waiting Process call takes its case <-ctx.Done() *)
| step_run_process_gives_up sys i tick :
    runLoops sys !! i = Some (InProcess tick) →
    ctxDone (ctx (agent sys)) = true →
    step sys {| agent := with_work (agent sys) (processor (agent sys))
                           (with_LastError (state (agent sys)) (ctxErr (ctx (agent sys))));
                runLoops := <[i := AtSelect tick]> (runLoops sys);
                cleanupLoops := cleanupLoops sys;
                observed := observed sys ++ [ProcessEvents []] |}
(* Agent.run, case <-a.ctx.Done() *)
| step_run_exit sys i tick :
    runLoops sys !! i = Some (AtSelect tick) →
    ctxDone (ctx (agent sys)) = true →
    step sys {| agent := agent sys; runLoops := <[i := Exited]> (runLoops sys);
                cleanupLoops := cleanupLoops sys;
                observed := observed sys ++ [RunLoopExited] |}
(* Agent.memoryCleanup, case <-ticker.C *)
| step_cleanup_sweep sys i runShort runLong runVolatile :
    cleanupLoops sys !! i = Some (AtSelect true) →
    step sys {| agent := with_work (agent sys) (processor (agent sys))
                           (CleanupExpiredMemory (state (agent sys))
                              runShort runLong runVolatile);
                runLoops := runLoops sys;
                cleanupLoops := <[i := AtSelect false]> (cleanupLoops sys);
                observed := observed sys ++ [SweepStarted] |}
(* Agent.memoryCleanup, case <-a.ctx.Done() *)
| step_cleanup_exit sys i tick :
    cleanupLoops sys !! i = Some (AtSelect tick) →
    ctxDone (ctx (agent sys)) = true →
    step sys {| agent := agent sys; runLoops := runLoops sys;
                cleanupLoops := <[i := Exited]> (cleanupLoops sys);
                observed := observed sys ++ [CleanupLoopExited] |}.

(** The executions of an agent from its construction. *)
Inductive steps : System → System → Prop :=
| steps_refl sys : steps sys sys
| steps_step sys1 sys2 sys3 : steps sys1 sys2 → step sys2 sys3 → steps sys1 sys3.

(** *** Concurrent calls of [Process] at the semaphore

    After it has taken its task from the queue, a call of [Process] waits
    in the [select] around the semaphore, then holds a slot for the whole
    of [executeTask] (so for as long as its handler runs), and gives the
    slot back when it returns. *)
Inductive Call :=
| Waiting
| Executing
| Finished.

Record Pool := {
  slots : Semaphore;
  calls : list Call
}.

Definition is_executing (c : Call) : bool :=
  match c with Executing => true | _ => false end.

(** The number of calls whose handler may be running. *)
Definition executing (pool : Pool) : nat :=
  length (List.filter is_executing (calls pool)).

Inductive pool_step : Pool → Pool → Prop :=
(* one more call of Process reaches the select *)
| pool_enter pool :
    pool_step pool {| slots := slots pool; calls := calls pool ++ [Waiting] |}
(* case p.semaphore <- struct{}{} *)
| pool_acquire pool i :
    calls pool !! i = Some Waiting →
    can_send (slots pool) = true →
    pool_step pool {| slots := send (slots pool); calls := <[i := Executing]> (calls pool) |}
(* case <-ctx.Done() *)
| pool_give_up pool i :
    calls pool !! i = Some Waiting →
    pool_step pool {| slots := slots pool; calls := <[i := Finished]> (calls pool) |}
(* executeTask returns, the deferred receive runs *)
| pool_release pool i :
    calls pool !! i = Some Executing →
    pool_step pool {| slots := recv (slots pool); calls := <[i := Finished]> (calls pool) |}.

Inductive pool_steps : Pool → Pool → Prop :=
| pool_steps_refl pool : pool_steps pool pool
| pool_steps_step pool1 pool2 pool3 :
    pool_steps pool1 pool2 → pool_step pool2 pool3 → pool_steps pool1 pool3.

(** The tokens in the channel are the calls that execute, and they fit. *)
Definition pool_inv (cap : Z) (pool : Pool) : Prop :=
  semCap (slots pool) = cap ∧
  semLen (slots pool) = executing pool ∧
  Z.of_nat (executing pool) <= cap.

(** No call of [Process] has arrived yet. *)
Definition idle_pool (p : Processor) : Pool :=
  {| slots := semaphore p; calls := [] |}.

(** *** The task queue from the outside: tasks are added and taken *)
Inductive queue_step : Processor → Processor → Prop :=
| queue_add p task tID tCreated :
    queue_step p (AddTask p task tID tCreated).2
| queue_process p ctx state clk pick :
    queue_step p (Process p ctx state clk pick).1.1.2
| queue_register p taskType handler :
    queue_step p (RegisterHandler p taskType handler).

Inductive queue_steps : Processor → Processor → Prop :=
| queue_steps_refl p : queue_steps p p
| queue_steps_step p1 p2 p3 :
    queue_steps p1 p2 → queue_step p2 p3 → queue_steps p1 p3.

(** The queue invariant: higher priority first, then earlier creation. *)
Definition queue_sorted (p : Processor) : Prop :=
  StronglySorted (GoSort.may_precede task_less) (tasks p).
End Model.

Arguments MemoryItem Any : clear implicits.
Arguments MemoryStore Any : clear implicits.
Arguments State Any : clear implicits.
Arguments Task Any : clear implicits.
Arguments TaskHandler Any : clear implicits.
Arguments Processor Any : clear implicits.
Arguments Event Any : clear implicits.
Arguments Agent Any : clear implicits.
Arguments Observed Any : clear implicits.
Arguments System Any : clear implicits.

(** ** Observers of the queue and of the agent *)
Module AgentStatus.
(** [AgentStatus], the snapshot [GetStatus] returns. *)
Record t := {
  ID : string;
  Status : Status;
  TasksProcessed : Z;
  Uptime : GoTime.Duration;
  LastActivity : GoTime.Time;
  LastError : option error
}.
End AgentStatus.

Section Observers.
Context {Any : Type}.
Import GoTime.

(** [Agent.GetStatus]; [now] is the clock reading of [time.Since]. *)
Definition GetStatus (a : Agent Any) (now : Time) : AgentStatus.t := {|
  AgentStatus.ID := AgentID a;
  AgentStatus.Status := Status_ (state a);
  AgentStatus.TasksProcessed := TasksProcessed (state a);
  AgentStatus.Uptime := Since now (startTime a);
  AgentStatus.LastActivity := LastActivity (state a);
  AgentStatus.LastError := LastError (state a)
|}.

(** [Processor.GetQueueLength] *)
Definition GetQueueLength (p : Processor Any) : Z := Z.of_nat (length (tasks p)).

Record QueueStatus := {
  TotalTasks : Z;
  PriorityLevels : gmap Z Z;
  TaskTypes : gmap string Z
}.

(** [m[k]++] on a [map[K]int]: an absent key reads as 0. *)
Definition bump `{Countable K} (k : K) (m : gmap K Z) : gmap K Z :=
  <[k := GoInt.incr (default 0 (m !! k))]> m.

(** [Processor.GetQueueStatus] *)
Definition GetQueueStatus (p : Processor Any) : QueueStatus :=
  fold_left
    (λ status task,
       {| TotalTasks := TotalTasks status;
          PriorityLevels := bump (Priority task) (PriorityLevels status);
          TaskTypes := bump (Type_ task) (TaskTypes status) |})
    (tasks p)
    {| TotalTasks := Z.of_nat (length (tasks p)); PriorityLevels := ∅; TaskTypes := ∅ |}.

(** The number of tasks of a list that [f] sends to [k]. *)
Definition tally {K} `{EqDecision K} (f : Task Any → K) (k : K) (ts : list (Task Any)) : nat :=
  length (List.filter (λ task, bool_decide (f task = k)) ts).

(** What a map of counters holds for a key counted [n] times. *)
Definition counted (n : nat) : option Z :=
  if decide (n = 0%nat) then None else Some (Z.of_nat n).

(** The calls of [Start] that have returned the nil error. *)
Definition is_start (o : Observed Any) : bool :=
  match o with StartReturned None => true | _ => false end.

Definition starts (obs : list (Observed Any)) : nat := length (List.filter is_start obs).

(** The background work an observer can see. *)
Definition is_background (o : Observed Any) : bool :=
  match o with ProcessStarted | SweepStarted => true | _ => false end.

(** Every successful [Start] has launched one run loop and one cleanup loop,
    and there is no background work without a loop. *)
Definition loops_inv (sys : System Any) : Prop :=
  length (runLoops sys) = starts (observed sys) ∧
  length (cleanupLoops sys) = starts (observed sys) ∧
  (starts (observed sys) = 0%nat → List.filter is_background (observed sys) = []).

(** The handlers are those of [registerDefaultHandlers], and no task has
    been counted. *)
Definition defaults_inv (sys : System Any) : Prop :=
  handlers (processor (agent sys))
    = <["system.reset" := handleReset]> (<["system.health" := handleHealthCheck]> ∅) ∧
  TasksProcessed (state (agent sys)) = 0.
End Observers.

(** ** Sample data

    Concrete configurations, tasks and stores on which the properties below
    are exercised; the opaque values are strings. *)
Module Sample.
Import GoTime.

(** Some instant, and the same instant one nanosecond and one second later. *)
Definition t0 : Time := 63900000000 * Second.
Definition t1 : Time := t0 + 1.
Definition t2 : Time := t0 + Second.

Definition at_ (t : Time) : ProcessClock :=
  {| tExpiry := t; tStart := t; tUntil := t; tCtx := t; tEnd := t |}.

(** The tasks of the scenario of the specification: A before B, B more urgent. *)
Definition taskA : Task string :=
  {| ID := "A"; Type_ := "system.health"; Priority := 5; Data := ∅;
     CreatedAt := t0; StartedAt := None; Deadline := None; Attempts := 0 |}.
Definition taskB : Task string :=
  {| ID := "B"; Type_ := "system.health"; Priority := 10; Data := ∅;
     CreatedAt := t1; StartedAt := None; Deadline := None; Attempts := 0 |}.
(** A task whose deadline was a second ago at [t2], and one due in an hour. *)
Definition taskLate : Task string :=
  {| ID := "late"; Type_ := "system.health"; Priority := 1; Data := ∅;
     CreatedAt := t0; StartedAt := None; Deadline := Some t1; Attempts := 0 |}.
Definition taskLong : Task string :=
  {| ID := "long"; Type_ := "system.health"; Priority := 1; Data := ∅;
     CreatedAt := t0; StartedAt := None; Deadline := Some (t0 + Hour); Attempts := 0 |}.

Definition processor0 : Processor string :=
  RegisterHandler
    {| tasks := []; handlers := ∅;
       semaphore := {| semCap := DefaultMaxConcurrentTasks; semLen := 0 |} |}
    "system.health" handleHealthCheck.

Definition state0 : State string := NewState NewDefaultConfig t0.

Definition queueAB : Processor string :=
  (AddTask (AddTask processor0 taskA t0 t0).2 taskB t1 t1).2.

Definition queueLate : Processor string := (AddTask processor0 taskLate t0 t0).2.
Definition queueLong : Processor string := (AddTask processor0 taskLong t0 t0).2.

(** A configuration that passes [Validate] with a short-term store of
    capacity [n]. *)
Definition configShort (n : Z) : Config := {|
  Name := "lilith";
  ProcessInterval := DefaultProcessInterval;
  MaxShortTermMemory := n;
  MaxLongTermMemory := DefaultMaxLongTermMemory;
  MaxConcurrentTasks := 1;
  TaskTimeout := DefaultTaskTimeout;
  EnableEncryption := false;
  EncryptionKey := ""
|}.

(** No cleanup is needed, or nothing is left to score. *)
Definition noRun (t : Time) : CleanupRun := {| cleanupNow := t; scoreVisits := [] |}.

(** The scenario of the specification, through [Remember] and [Recall]: a
    short-term store of capacity 2; [a] is stored and read five times, then
    [b] is stored and never read. *)
Definition remember (s : State string) (key : string) (t : Time) (run : CleanupRun)
  : State string :=
  (Remember s key ("value of " +:+ key) MemoryTypeShortTerm 0 t t t run).2.

Definition recall (s : State string) (key : string) (t : Time) : State string :=
  (Recall s key MemoryTypeShortTerm t t).2.

Definition stateA5 : State string :=
  let s := remember (NewState (configShort 2) t0) "a" t0 (noRun t0) in
  let s := recall s "a" (t0 + 1) in
  let s := recall s "a" (t0 + 2) in
  let s := recall s "a" (t0 + 3) in
  let s := recall s "a" (t0 + 4) in
  recall s "a" (t0 + 5).

(** [b] is stored at [t2]. *)
Definition stateA5B : State string := remember stateA5 "b" t2 (noRun t2).

(** [c] is stored while the clock still reads [t2]; the scoring loop visits
    [a] before [b]. *)
Definition runSameTick : CleanupRun :=
  {| cleanupNow := t2; scoreVisits := [("a", t2); ("b", t2)] |}.
Definition stateSameTick : State string := remember stateA5B "c" t2 runSameTick.

(** [c] is stored one nanosecond later. *)
Definition runNextTick : CleanupRun :=
  {| cleanupNow := t2 + 1; scoreVisits := [("a", t2 + 1); ("b", t2 + 1)] |}.
Definition stateNextTick : State string := remember stateA5B "c" (t2 + 1) runNextTick.

(** An agent with the default handlers and one more task type. *)
Definition agent0 : Agent string :=
  match NewAgent (Any := string) (configShort 2) t0 with
  | inr a => a
  | inl _ => {| AgentID := ""; ctx := Background; config := configShort 2;
                processor := processor0; state := state0;
                isRunning := false; startTime := 0 |}
  end.

Definition agentRunning : Agent string := (Start agent0 t0 t0 t0).2.
Definition agentWithTask : Agent string := (Agent_AddTask agentRunning taskA t0 t0).2.
Definition agentStopped : Agent string := (Stop agentWithTask t1 t1).2.

(** The agent and its goroutines: started, a task added, a tick of the run
    loop's ticker buffered, then stopped; and after that, the run loop taking
    the ticker's case of its [select]. *)
Definition systemStopped : System string :=
  {| agent := agentStopped;
     runLoops := [AtSelect true];
     cleanupLoops := [AtSelect false];
     observed := [StartReturned None; AddTaskReturned None; StopReturned None] |}.

Definition lateProcess : Outcome * Processor string * State string * list (Event string) :=
  Process (processor agentStopped) (ctx agentStopped) (state agentStopped) (at_ t2) PickFirst.

Definition systemLate : System string :=
  {| agent := with_work agentStopped lateProcess.1.1.2 lateProcess.1.2;
     runLoops := [AtSelect false];
     cleanupLoops := [AtSelect false];
     observed := [StartReturned None; AddTaskReturned None; StopReturned None;
                  ProcessStarted; ProcessEvents lateProcess.2] |}.

(** A processor limited to one task at a time, and two calls of [Process]
    of which the first has taken the slot. *)
Definition processorOne : Processor string :=
  {| tasks := []; handlers := ∅; semaphore := {| semCap := 1; semLen := 0 |} |}.
Definition poolBusy : Pool :=
  {| slots := send (semaphore processorOne); calls := [Executing; Waiting] |}.

End Sample.

(** More sample data, for the properties of Part IV. *)
Module Sample2.
Import GoTime Sample.

(** A task of a type nobody handles. *)
Definition taskOdd : Task string :=
  {| ID := "odd"; Type_ := "user.report"; Priority := 1; Data := ∅;
     CreatedAt := t0; StartedAt := None; Deadline := None; Attempts := 0 |}.
Definition queueOdd : Processor string := (AddTask processor0 taskOdd t0 t0).2.

(** A task due exactly at [t1]. *)
Definition taskDue : Task string :=
  {| ID := "due"; Type_ := "system.health"; Priority := 1; Data := ∅;
     CreatedAt := t0; StartedAt := None; Deadline := Some t1; Attempts := 0 |}.
Definition queueDue : Processor string := (AddTask processor0 taskDue t0 t0).2.

(** The queue of A and B with every slot of a one-slot semaphore taken. *)
Definition queueBusy : Processor string :=
  with_semaphore queueAB {| semCap := 1; semLen := 1 |}.

(** A third task of the priority of A, created later. *)
Definition taskC : Task string :=
  {| ID := "C"; Type_ := "system.reset"; Priority := 5; Data := ∅;
     CreatedAt := t2; StartedAt := None; Deadline := None; Attempts := 0 |}.

(** A full short-term store whose items are all live. *)
Definition storeFull : MemoryStore string := ShortTerm stateA5B.

(** Two different tasks submitted without an id, and the queue after both
    are added while the clock reads [t0]. *)
Definition taskAnon1 : Task string :=
  {| ID := ""; Type_ := "system.health"; Priority := 1; Data := ∅;
     CreatedAt := t0; StartedAt := None; Deadline := None; Attempts := 0 |}.
Definition taskAnon2 : Task string :=
  {| ID := ""; Type_ := "system.reset"; Priority := 2; Data := ∅;
     CreatedAt := t0; StartedAt := None; Deadline := None; Attempts := 0 |}.
Definition queueAnon1 : Processor string := (AddTask processor0 taskAnon1 t0 t0).2.
Definition queueAnon2 : Processor string := (AddTask queueAnon1 taskAnon2 t0 t0).2.
End Sample2.

(* ===================================================================== *)
(** * Part II: properties *)
(* ===================================================================== *)

(** ** Machine integers and time *)
Section RuntimeFacts.
Import GoInt GoTime.

Lemma wrap64_in_range z : in_range z → wrap64 z = z.
Proof.
  unfold in_range, wrap64, min_int64, max_int64. intros Hz.
  rewrite Z.mod_small; lia.
Qed.

Lemma incr_below_max z : min_int64 <= z < max_int64 → incr z = z + 1.
Proof.
  unfold incr, min_int64, max_int64. intros Hz.
  apply wrap64_in_range. unfold in_range, min_int64, max_int64. lia.
Qed.

Lemma Sub_exact t u : minDuration <= t - u <= maxDuration → Sub t u = t - u.
Proof.
  unfold Sub. intros [Hlo Hhi].
  destruct (Z.ltb_spec (t - u) minDuration); [lia |].
  destruct (Z.ltb_spec maxDuration (t - u)); [lia | reflexivity].
Qed.

Lemma After_spec t u : After t u = true ↔ u < t.
Proof. unfold After. apply Z.ltb_lt. Qed.

Lemma Before_spec t u : Before t u = true ↔ t < u.
Proof. unfold Before. apply Z.ltb_lt. Qed.
End RuntimeFacts.

(** ** Insertion sort *)
Section SortFacts.
Context {A : Type} (less : A → A → bool).
Import GoSort.

Lemma sift_perm x rp : sift less x rp ≡ₚ x :: rp.
Proof.
  induction rp as [| y rp IH]; simpl; [done |].
  destruct (less x y); [| done].
  rewrite IH. apply Permutation_swap.
Qed.

Lemma fold_sift_perm l rp :
  fold_left (λ rp x, sift less x rp) l rp ≡ₚ l ++ rp.
Proof.
  revert rp. induction l as [| x l IH]; intros rp; simpl; [done |].
  rewrite IH, sift_perm. by rewrite Permutation_middle.
Qed.

(** Sorting neither drops nor duplicates an element, whatever [less] is. *)
Lemma insertion_sort_perm l : insertion_sort less l ≡ₚ l.
Proof.
  unfold insertion_sort. rewrite <- Permutation_rev.
  rewrite fold_sift_perm. by rewrite app_nil_r.
Qed.

Lemma insertion_sort_length l : length (insertion_sort less l) = length l.
Proof. apply Permutation_length, insertion_sort_perm. Qed.

(** For the result to be ordered, [less] has to be a strict weak order. *)
Hypothesis less_asym : ∀ x y, less x y = true → less y x = false.
Hypothesis less_negtrans : ∀ x y z, less x y = false → less y z = false → less x z = false.

Lemma sift_sorted x rp : prefix_sorted less rp → prefix_sorted less (sift less x rp).
Proof.
  unfold prefix_sorted.
  induction rp as [| y rp IH]; simpl; intros Hs.
  - repeat constructor.
  - apply StronglySorted_cons in Hs as [Hy Hs].
    destruct (less x y) eqn:Hxy.
    + apply StronglySorted_cons. split; [| by apply IH].
      rewrite (sift_perm x rp). constructor; [by apply less_asym | done].
    + apply StronglySorted_cons. split.
      * constructor; [done |].
        eapply Forall_impl; [exact Hy |]. intros z Hyz. by eapply less_negtrans.
      * by apply StronglySorted_cons.
Qed.

Lemma fold_sift_sorted l rp :
  prefix_sorted less rp → prefix_sorted less (fold_left (λ rp x, sift less x rp) l rp).
Proof.
  revert rp. induction l as [| x l IH]; intros rp Hs; simpl; [done |].
  by apply IH, sift_sorted.
Qed.

Lemma prefix_sorted_rev rp :
  prefix_sorted less rp → StronglySorted (may_precede less) (rev rp).
Proof.
  unfold prefix_sorted.
  induction rp as [| y rp IH]; simpl; intros Hs; [constructor |].
  apply StronglySorted_cons in Hs as [Hy Hs].
  apply StronglySorted_app. split_and!.
  - intros a b Ha Hb. apply list_elem_of_singleton in Hb as ->.
    apply list_elem_of_In, in_rev in Ha.
    unfold may_precede. rewrite Forall_forall in Hy. apply Hy.
    by apply list_elem_of_In.
  - by apply IH.
  - repeat constructor.
Qed.

(** Every element may precede all that follow it. *)
Lemma insertion_sort_sorted l :
  StronglySorted (may_precede less) (insertion_sort less l).
Proof.
  apply prefix_sorted_rev, fold_sift_sorted. constructor.
Qed.
End SortFacts.

(** ** The task queue *)
Section QueueFacts.
Context {Any : Type}.
Import GoTime GoSort.
Implicit Types (p : Processor Any) (task : Task Any).

Lemma task_less_false (a b : Task Any) :
  task_less a b = false ↔
  Priority a < Priority b ∨ (Priority a = Priority b ∧ CreatedAt b <= CreatedAt a).
Proof.
  unfold task_less, Before.
  destruct (Z.eqb_spec (Priority a) (Priority b)) as [Heq | Hne]; simpl.
  - rewrite Z.ltb_ge. lia.
  - rewrite Z.ltb_ge. lia.
Qed.

Lemma task_less_true (a b : Task Any) :
  task_less a b = true ↔
  Priority b < Priority a ∨ (Priority a = Priority b ∧ CreatedAt a < CreatedAt b).
Proof.
  unfold task_less, Before.
  destruct (Z.eqb_spec (Priority a) (Priority b)) as [Heq | Hne]; simpl.
  - rewrite Z.ltb_lt. lia.
  - rewrite Z.ltb_lt. lia.
Qed.

Lemma task_less_asym (a b : Task Any) : task_less a b = true → task_less b a = false.
Proof. rewrite task_less_true, task_less_false. lia. Qed.

Lemma task_less_negtrans (a b c : Task Any) :
  task_less a b = false → task_less b c = false → task_less a c = false.
Proof. rewrite !task_less_false. lia. Qed.

Lemma sortTasks_sorted p : queue_sorted (sortTasks p).
Proof.
  unfold queue_sorted, sortTasks. simpl.
  apply insertion_sort_sorted; [apply task_less_asym | apply task_less_negtrans].
Qed.

Lemma AddTask_sorted p task tID tCreated :
  queue_sorted (AddTask p task tID tCreated).2.
Proof. unfold AddTask. simpl. apply sortTasks_sorted. Qed.

(** [Process] takes the head of the queue and nothing else. *)
Lemma Process_tasks p ctx state clk pick :
  tasks (Process p ctx state clk pick).1.1.2 = tail (tasks p).
Proof.
  unfold Process. destruct (tasks p) as [| task rest] eqn:Hq; simpl; [by rewrite Hq |].
  destruct (deadline_passed task (tExpiry clk)); [done |].
  destruct (executeTask (with_semaphore (with_tasks p rest) _) ctx state task clk)
    as [[err state'] evs] eqn:Hex.
  destruct (can_send _), (ctxDone ctx), pick; simpl; try done.
Qed.

Lemma queue_step_sorted p p' : queue_step p p' → queue_sorted p → queue_sorted p'.
Proof.
  intros Hstep Hs. destruct Hstep.
  - apply AddTask_sorted.
  - unfold queue_sorted in *. rewrite Process_tasks.
    destruct (tasks p) as [| t rest]; simpl; [constructor |].
    by apply StronglySorted_cons in Hs as [_ ?].
  - done.
Qed.

Lemma queue_steps_sorted p p' : queue_steps p p' → queue_sorted p → queue_sorted p'.
Proof.
  induction 1 as [| p1 p2 p3 _ IH Hstep]; [done |].
  intros Hs. eapply queue_step_sorted; [exact Hstep | by apply IH].
Qed.

Lemma NewProcessor_sorted config p : NewProcessor config = Some p → queue_sorted p.
Proof.
  unfold NewProcessor. destruct (_ <? _); [done |].
  intros [= <-]. constructor.
Qed.


Lemma stamp_ID_nonempty task tID tCreated : ID (stamp task tID tCreated) ≠ "".
Proof.
  unfold stamp. simpl. destruct (String.eqb_spec (ID task) "") as [Heq | Hne]; [| done].
  discriminate.
Qed.

(** Ids generated at different readings of the clock differ. *)
Lemma generated_id_inj (n n' : Z) :
  "task-" +:+ pretty n = "task-" +:+ pretty n' → n = n'.
Proof. simpl. intros [= H]. by apply (inj pretty). Qed.

(** C9, as amended: [AddTask] returns the nil error; the task it queues has
    a non-empty id (its own, or, when it had none, the id [task-<n>] made from
    the clock's reading [n] in nanoseconds alone, without a look at the ids
    already queued: readings that differ give ids that differ, one reading
    gives one id) and a creation time (its own, or the clock's when it had
    none) and is otherwise the task given; the queue afterwards holds exactly
    the tasks queued before and this one, so it is one longer and has lost
    none. *)
Theorem AddTask_always_inserts p task tID tCreated :
  let queued := stamp task tID tCreated in
  let r := AddTask p task tID tCreated in
  r.1 = None ∧
  tasks r.2 ≡ₚ tasks p ++ [queued] ∧
  length (tasks r.2) = S (length (tasks p)) ∧
  (∀ t, t ∈ tasks p → t ∈ tasks r.2) ∧
  queued ∈ tasks r.2 ∧
  ID queued ≠ "" ∧
  ID queued = (if String.eqb (ID task) "" then "task-" +:+ pretty (UnixNano tID) else ID task) ∧
  (∀ tID', ID task = "" → ID (stamp task tID' tCreated) = ID queued → UnixNano tID' = UnixNano tID) ∧
  CreatedAt queued = (if IsZero (CreatedAt task) then tCreated else CreatedAt task) ∧
  (Type_ queued, Priority queued, Data queued, StartedAt queued, Deadline queued, Attempts queued)
    = (Type_ task, Priority task, Data task, StartedAt task, Deadline task, Attempts task) ∧
  handlers r.2 = handlers p ∧ semaphore r.2 = semaphore p.
Proof.
  intros queued r.
  assert (Hperm : tasks r.2 ≡ₚ tasks p ++ [queued]).
  { unfold r, AddTask, sortTasks. simpl. apply insertion_sort_perm. }
  split_and!; try done.
  - rewrite Hperm, length_app. simpl. lia.
  - intros t Ht. rewrite Hperm. apply elem_of_app. by left.
  - rewrite Hperm. apply elem_of_app. right. by apply list_elem_of_singleton.
  - apply stamp_ID_nonempty.
  - intros tID' Hempty. unfold queued, stamp. simpl. rewrite Hempty. simpl.
    intros [= H]. by apply (inj pretty).
Qed.
End QueueFacts.

(** ** The memory store *)
Section MemoryFacts.
Context {Any : Type}.
Import GoTime GoSort.
Implicit Types (m : MemoryStore Any) (item : MemoryItem Any)
  (d : gmap string (MemoryItem Any)).

Lemma len_data_insert d key item : len_data (<[key := item]> d) <= len_data d + 1.
Proof.
  unfold len_data. rewrite map_size_insert.
  destruct (d !! key); simpl; lia.
Qed.

(** The eviction loop ends below the capacity when [items] names every key:
    it stops early, or it has deleted everything. *)
Lemma evict_below cap items d :
  1 <= cap →
  (∀ key, is_Some (d !! key) → key ∈ items.*1) →
  len_data (evict cap items d) < cap.
Proof.
  intros Hcap. revert d.
  induction items as [| [key sc] rest IH]; intros d Hkeys; simpl.
  - assert (d = ∅) as ->.
    { apply map_empty. intros i. destruct (d !! i) eqn:Hi; [| done].
      specialize (Hkeys i (mk_is_Some _ _ Hi)). by apply elem_of_nil in Hkeys. }
    unfold len_data. rewrite map_size_empty. lia.
  - destruct (Z.leb_spec cap (len_data d)) as [Hfull | Hroom]; [| lia].
    apply IH. intros key' Hsome.
    destruct (decide (key = key')) as [-> | Hne].
    + rewrite lookup_delete_eq in Hsome. by destruct Hsome.
    + rewrite lookup_delete_ne in Hsome by done.
      specialize (Hkeys key' Hsome). simpl in Hkeys.
      apply elem_of_cons in Hkeys as [-> | ?]; done.
Qed.

(** The eviction loop only deletes. *)
Lemma evict_lookup cap items d key item :
  evict cap items d !! key = Some item → d !! key = Some item.
Proof.
  revert d. induction items as [| [key' sc] rest IH]; intros d; simpl; [done |].
  destruct (cap <=? len_data d); [| done].
  intros H. apply IH in H. apply lookup_delete_Some in H. tauto.
Qed.

Lemma score_items_keys visits d key :
  key ∈ visits.*1 → is_Some (d !! key) → key ∈ (score_items visits d).*1.
Proof.
  intros Hin [item Hitem].
  apply list_elem_of_fmap in Hin as [[key' now] [-> Hin]]. simpl in *.
  apply list_elem_of_fmap. exists (key', score now item). split; [done |].
  apply list_elem_of_omap. exists (key', now). split; [done |].
  simpl. by rewrite Hitem.
Qed.

Lemma is_range_keys visits d key :
  is_range visits d → is_Some (d !! key) → key ∈ visits.*1.
Proof.
  unfold is_range. intros Hr [item Hitem]. rewrite Hr.
  apply list_elem_of_fmap. exists (key, item). split; [done |].
  by apply elem_of_map_to_list.
Qed.

(** [cleanup] leaves a store of capacity at least 1 below its capacity. *)
Lemma cleanup_below m run :
  1 <= maxSize m →
  is_range (scoreVisits run) (remove_expired (cleanupNow run) (data m)) →
  len_data (data (cleanup m run)) < maxSize m ∧ maxSize (cleanup m run) = maxSize m.
Proof.
  intros Hcap Hrange. unfold cleanup.
  destruct (Z.leb_spec (maxSize m) (len_data (remove_expired (cleanupNow run) (data m))))
    as [Hfull | Hroom]; simpl; [| done].
  split; [| done]. apply evict_below; [done |].
  intros key Hsome.
  assert (Hperm : (insertion_sort score_less
            (score_items (scoreVisits run) (remove_expired (cleanupNow run) (data m)))).*1
          ≡ₚ (score_items (scoreVisits run) (remove_expired (cleanupNow run) (data m))).*1).
  { apply fmap_Permutation, insertion_sort_perm. }
  rewrite Hperm. apply score_items_keys; [| done].
  by eapply is_range_keys.
Qed.

(** [cleanup] only deletes. *)
Lemma cleanup_lookup m run key item :
  data (cleanup m run) !! key = Some item → data m !! key = Some item.
Proof.
  unfold cleanup, remove_expired.
  destruct (_ <=? _); simpl; intros H.
  - apply evict_lookup in H. apply map_lookup_filter_Some in H. tauto.
  - apply map_lookup_filter_Some in H. tauto.
Qed.

(** C2, as amended: for a store of capacity at least 1, [Set] returns the nil
    error with the item stored under its key; a store at or over capacity is
    cleaned up before the insertion; and when the call returns the store
    holds no more items than its capacity. *)
Theorem Set_stays_within_capacity m key item run :
  1 <= maxSize m →
  is_range (scoreVisits run) (remove_expired (cleanupNow run) (data m)) →
  let r := Set_ m key item run in
  r.1 = None ∧
  data r.2 !! key = Some item ∧
  maxSize r.2 = maxSize m ∧
  (maxSize m <= len_data (data m) →
     data r.2 = <[key := item]> (data (cleanup m run))) ∧
  (len_data (data m) < maxSize m → data r.2 = <[key := item]> (data m)) ∧
  len_data (data r.2) <= maxSize m.
Proof.
  intros Hcap Hrange r. unfold r, Set_.
  destruct (Z.leb_spec (maxSize m) (len_data (data m))) as [Hfull | Hroom]; simpl.
  - destruct (cleanup_below m run Hcap Hrange) as [Hlt Hmax].
    split_and!; try done.
    + apply lookup_insert_eq.
    + lia.
    + pose proof (len_data_insert (data (cleanup m run)) key item). lia.
  - split_and!; try done.
    + apply lookup_insert_eq.
    + lia.
    + pose proof (len_data_insert (data m) key item). lia.
Qed.

(** C6: [Get] on a key that is absent fails with [ErrMemoryNotFound] and
    leaves the store alone; on an item whose expiry time has passed it fails
    with [ErrMemoryExpired] and the key is absent afterwards; otherwise it
    returns the stored value, and the item stored afterwards has its access
    count incremented and its last access set to the clock, and is otherwise
    unchanged. *)
Theorem Get_value_or_failure m key nowCheck nowAccess :
  let r := Get m key nowCheck nowAccess in
  match data m !! key with
  | None => r = (inl ErrMemoryNotFound, m)
  | Some item =>
      match ExpiresAt item with
      | Some e =>
          if decide (e < nowCheck)
          then r.1 = inl ErrMemoryExpired ∧ data r.2 !! key = None ∧
               (∀ key', key' ≠ key → data r.2 !! key' = data m !! key')
          else r.1 = inr (Value item)
      | None => r.1 = inr (Value item)
      end ∧
      (r.1 = inr (Value item) →
         ∃ item', data r.2 !! key = Some item' ∧
           AccessCount item' = GoInt.incr (AccessCount item) ∧
           (GoInt.min_int64 <= AccessCount item < GoInt.max_int64 →
              AccessCount item' = AccessCount item + 1) ∧
           LastAccess item' = nowAccess ∧
           (Value item', ItemCreatedAt item', ExpiresAt item', ItemPriority item')
             = (Value item, ItemCreatedAt item, ExpiresAt item, ItemPriority item) ∧
           (∀ key', key' ≠ key → data r.2 !! key' = data m !! key'))
  end.
Proof.
  intros r. unfold r, Get. destruct (data m !! key) as [item |] eqn:Hitem; [| done].
  unfold is_expired.
  assert (Hlive : ∀ it', it' = {| Value := Value item; ItemCreatedAt := ItemCreatedAt item;
                 ExpiresAt := ExpiresAt item; AccessCount := GoInt.incr (AccessCount item);
                 LastAccess := nowAccess; ItemPriority := ItemPriority item |} →
     ∃ item', <[key := it']> (data m) !! key = Some item' ∧
       AccessCount item' = GoInt.incr (AccessCount item) ∧
       (GoInt.min_int64 <= AccessCount item < GoInt.max_int64 →
          AccessCount item' = AccessCount item + 1) ∧
       LastAccess item' = nowAccess ∧
       (Value item', ItemCreatedAt item', ExpiresAt item', ItemPriority item')
         = (Value item, ItemCreatedAt item, ExpiresAt item, ItemPriority item) ∧
       (∀ key', key' ≠ key → <[key := it']> (data m) !! key' = data m !! key')).
  { intros it' ->. eexists. split; [apply lookup_insert_eq |]. simpl.
    split_and!; try done.
    - apply incr_below_max.
    - intros key' Hne. by apply lookup_insert_ne. }
  destruct (ExpiresAt item) as [e |] eqn:Hexp.
  - unfold After. destruct (decide (e < nowCheck)) as [Hlt | Hge].
    + apply Z.ltb_lt in Hlt as ->. simpl. split.
      * split_and!; [done | apply lookup_delete_eq |].
        intros key' Hne. by apply lookup_delete_ne.
      * intros [=].
    + apply Z.ltb_nlt in Hge as ->. simpl. split; [done |].
      intros _. by apply Hlive.
  - simpl. split; [done |]. intros _. by apply Hlive.
Qed.
End MemoryFacts.

(** ** Remembering *)
Section StateFacts.
Context {Any : Type}.
Import GoTime.
Implicit Types (s : State Any) (m : MemoryStore Any).

Lemma store_of_with_store s memoryType m m' :
  store_of s memoryType = Some m →
  store_of (with_store s memoryType m') memoryType = Some m'.
Proof.
  unfold store_of, with_store. simpl.
  destruct (memoryType =? MemoryTypeShortTerm) eqn:H0; [done |].
  destruct (memoryType =? MemoryTypeLongTerm) eqn:H1; [done |].
  destruct (memoryType =? MemoryTypeVolatile) eqn:H2; done.
Qed.

(** C10: for every key, value, memory type and ttl, [Remember] either
    rejects the memory type and leaves the state alone, or returns the nil
    error and the chosen store then holds, under the key, the value with
    priority 1 and access count 0: nothing the caller passes reaches these
    two fields. *)
Theorem Remember_fixes_priority_and_access_count
    s key (value : Any) memoryType ttl tExpiry tCreated tAccess run :
  let r := Remember s key value memoryType ttl tExpiry tCreated tAccess run in
  match store_of s memoryType with
  | None => r = (Some ErrInvalidMemoryType, s)
  | Some _ =>
      r.1 = None ∧
      ∃ store item,
        store_of r.2 memoryType = Some store ∧
        data store !! key = Some item ∧
        item = remembered_item value ttl tExpiry tCreated tAccess ∧
        Value item = value ∧
        ItemPriority item = 1 ∧
        AccessCount item = 0
  end.
Proof.
  intros r. unfold r, Remember.
  destruct (store_of s memoryType) as [m |] eqn:Hstore; [| done].
  simpl. split; [done |].
  eexists _, _. split; [by eapply store_of_with_store |].
  simpl. split; [apply lookup_insert_eq |]. done.
Qed.
End StateFacts.

(** ** Processing a task *)
Section ProcessFacts.
Context {Any : Type}.
Import GoTime.
Implicit Types (p : Processor Any) (task : Task Any) (state : State Any).

(** C4: when the task at the head of the queue has a deadline that the
    clock has passed, [Process] returns the expired-task error for it; the
    task is gone from the queue and is not queued again; no slot of the
    semaphore is taken, no handler is invoked, and the state the handlers
    work on is untouched. *)
Theorem Process_drops_expired_task p ctx state clk pick task rest d :
  tasks p = task :: rest →
  Deadline task = Some d →
  d < tExpiry clk →
  let r := Process p ctx state clk pick in
  r.1.1.1 = Returned (Some (ErrTaskExpired (ID task))) ∧
  tasks r.1.1.2 = rest ∧
  semaphore r.1.1.2 = semaphore p ∧
  handlers r.1.1.2 = handlers p ∧
  r.1.2 = state ∧
  r.2 = [].
Proof.
  intros Hq Hd Hpast r. unfold r, Process. rewrite Hq.
  unfold deadline_passed, After. rewrite Hd.
  apply Z.ltb_lt in Hpast as ->. done.
Qed.

Lemma getTaskTimeout_cases task now :
  getTaskTimeout task now =
    match Deadline task with
    | Some d => Until now d
    | None => 30 * Second
    end.
Proof. unfold getTaskTimeout. by destruct (Deadline task). Qed.

End ProcessFacts.

(** ** The concurrency limiter *)
Section PoolFacts.
Context {Any : Type}.
Implicit Types (pool : Pool) (cs : list Call).

Lemma filter_insert_count cs i c c' :
  cs !! i = Some c →
  (length (List.filter is_executing (<[i := c']> cs)) + (if is_executing c then 1 else 0)
   = length (List.filter is_executing cs) + (if is_executing c' then 1 else 0))%nat.
Proof.
  revert i. induction cs as [| c0 cs IH]; intros [| i] Hi; simplify_eq/=.
  - destruct (is_executing c), (is_executing c'); simpl; lia.
  - specialize (IH i Hi). destruct (is_executing c0); simpl; lia.
Qed.

Lemma filter_snoc_waiting cs :
  length (List.filter is_executing (cs ++ [Waiting])) = length (List.filter is_executing cs).
Proof. rewrite List.filter_app, length_app. simpl. lia. Qed.

Lemma pool_step_inv cap pool pool' :
  pool_step pool pool' → pool_inv cap pool → pool_inv cap pool'.
Proof.
  unfold pool_inv, executing.
  intros Hstep (Hcap & Hlen & Hle). destruct Hstep as [pool | pool i Hi Hsend | pool i Hi | pool i Hi]; simpl.
  - rewrite filter_snoc_waiting. done.
  - pose proof (filter_insert_count _ _ _ Executing Hi) as Hc. simpl in Hc.
    unfold can_send in Hsend. apply Z.ltb_lt in Hsend.
    split_and!; [done | lia | lia].
  - pose proof (filter_insert_count _ _ _ Finished Hi) as Hc. simpl in Hc.
    split_and!; [done | lia | lia].
  - pose proof (filter_insert_count _ _ _ Finished Hi) as Hc. simpl in Hc.
    split_and!; [done | lia | lia].
Qed.

Lemma pool_steps_inv cap pool pool' :
  pool_steps pool pool' → pool_inv cap pool → pool_inv cap pool'.
Proof.
  induction 1 as [| pool1 pool2 pool3 _ IH Hstep]; [done |].
  intros Hinv. eapply pool_step_inv; [exact Hstep | by apply IH].
Qed.

Lemma idle_pool_inv config (p : Processor Any) :
  NewProcessor config = Some p → pool_inv (MaxConcurrentTasks config) (idle_pool p).
Proof.
  unfold NewProcessor. destruct (Z.ltb_spec (MaxConcurrentTasks config) 0); [done |].
  intros [= <-]. unfold pool_inv, executing. simpl. split_and!; [done | done | lia].
Qed.

End PoolFacts.

(** ** Stopping the agent *)
Section AgentFacts.
Context {Any : Type}.
Implicit Types (a : Agent Any) (sys : System Any).

Lemma ctxDone_cancel c : ctxDone (cancel c) = true.
Proof.
  unfold ctxDone, cancel. destruct (ctxErr c) as [e |] eqn:He.
  - rewrite He. by apply bool_decide_eq_true.
  - done.
Qed.

(** No step of the agent or of its goroutines reopens the context. *)
Lemma step_ctx_done sys sys' :
  step sys sys' → ctxDone (ctx (agent sys)) = true → ctxDone (ctx (agent sys')) = true.
Proof.
  intros Hstep Hdone. destruct Hstep; simpl; try done.
  - unfold Start in *. destruct (isRunning (agent sys)); by simplify_eq/=.
  - unfold Stop in *. destruct (isRunning (agent sys)); simplify_eq/=; [| done].
    apply ctxDone_cancel.
  - unfold Agent_AddTask in *. destruct (isRunning (agent sys)); by simplify_eq/=.
Qed.

Lemma lookup_insert_keeps (ls : list Loop) i j l l' :
  ls !! i = Some Exited → ls !! j = Some l → l ≠ Exited →
  <[j := l']> ls !! i = Some Exited.
Proof.
  intros Hi Hj Hne. destruct (decide (i = j)) as [-> | Hij].
  - congruence.
  - by rewrite list_lookup_insert_ne.
Qed.

(** A loop that has returned stays returned. *)
Lemma step_exited sys sys' :
  step sys sys' →
  (∀ i, runLoops sys !! i = Some Exited → runLoops sys' !! i = Some Exited) ∧
  (∀ i, cleanupLoops sys !! i = Some Exited → cleanupLoops sys' !! i = Some Exited).
Proof.
  intros Hstep.
  destruct Hstep as [sys ? ? ? err a ?| | |sys j l Hj|sys j l Hj| | | | | |];
    simpl; split; intros k Hk; try done;
    try (by apply lookup_app_l_Some);
    try (by eapply lookup_insert_keeps).
  - destruct (decide (k = j)) as [-> | Hne].
    + rewrite Hk in Hj. simplify_eq. rewrite list_lookup_insert_eq; [done |].
      by eapply lookup_lt_Some.
    + by rewrite list_lookup_insert_ne.
  - destruct (decide (k = j)) as [-> | Hne].
    + rewrite Hk in Hj. simplify_eq. rewrite list_lookup_insert_eq; [done |].
      by eapply lookup_lt_Some.
    + by rewrite list_lookup_insert_ne.
Qed.

Lemma steps_after_cancel sys sys' :
  steps sys sys' →
  ctxDone (ctx (agent sys)) = true →
  ctxDone (ctx (agent sys')) = true ∧
  (∀ i, runLoops sys !! i = Some Exited → runLoops sys' !! i = Some Exited) ∧
  (∀ i, cleanupLoops sys !! i = Some Exited → cleanupLoops sys' !! i = Some Exited).
Proof.
  induction 1 as [| sys1 sys2 sys3 _ IH Hstep]; [done |].
  intros Hdone. destruct (IH Hdone) as (Hd & Hr & Hc).
  destruct (step_exited _ _ Hstep) as [Hr' Hc'].
  split_and!; [by eapply step_ctx_done | by auto | by auto].
Qed.

(** C5, as amended: [Stop] on a running agent returns the nil error with
    the agent marked not running, its status [stopped] and its context
    cancelled, and the queue as it was; an [AddTask] that follows fails with
    [ErrAgentNotRunning] and changes nothing.  From then on the context
    stays cancelled, each background loop waiting at its [select] can take
    the cancellation case and return, and a loop that has returned runs no
    more.  ([Stop] does not wait for the loops to do so.) *)
Theorem Stop_cancels_and_rejects_tasks a tUpdated tActivity :
  isRunning a = true →
  let r := Stop a tUpdated tActivity in
  r.1 = None ∧
  isRunning r.2 = false ∧
  Status_ (state r.2) = StatusStopped ∧
  ctxDone (ctx r.2) = true ∧
  processor r.2 = processor a ∧
  (∀ task tID tCreated, Agent_AddTask r.2 task tID tCreated = (Some ErrAgentNotRunning, r.2)) ∧
  (∀ sys sys', agent sys = r.2 → steps sys sys' →
     ctxDone (ctx (agent sys')) = true ∧
     (∀ i tick, runLoops sys' !! i = Some (AtSelect tick) →
        ∃ sys'', step sys' sys'' ∧ runLoops sys'' !! i = Some Exited ∧
                 agent sys'' = agent sys') ∧
     (∀ i tick, cleanupLoops sys' !! i = Some (AtSelect tick) →
        ∃ sys'', step sys' sys'' ∧ cleanupLoops sys'' !! i = Some Exited ∧
                 agent sys'' = agent sys') ∧
     (∀ sys'' i, steps sys' sys'' →
        (runLoops sys' !! i = Some Exited → runLoops sys'' !! i = Some Exited) ∧
        (cleanupLoops sys' !! i = Some Exited → cleanupLoops sys'' !! i = Some Exited))).
Proof.
  intros Hrun r. unfold r, Stop. rewrite Hrun. simpl.
  split_and!; try done.
  - apply ctxDone_cancel.
  - intros sys sys' Hagent Hsteps.
    assert (Hdone : ctxDone (ctx (agent sys)) = true).
    { rewrite Hagent. simpl. apply ctxDone_cancel. }
    destruct (steps_after_cancel _ _ Hsteps Hdone) as (Hdone' & _ & _).
    split_and!; [done | | |].
    + intros i tick Hi. eexists. split; [by eapply step_run_exit |]. simpl.
      split; [| done]. apply list_lookup_insert_eq. by eapply lookup_lt_Some.
    + intros i tick Hi. eexists. split; [by eapply step_cleanup_exit |]. simpl.
      split; [| done]. apply list_lookup_insert_eq. by eapply lookup_lt_Some.
    + intros sys'' i Hsteps'.
      destruct (steps_after_cancel _ _ Hsteps' Hdone') as (_ & Hr & Hc).
      split; [apply Hr | apply Hc].
Qed.
End AgentFacts.

(* ===================================================================== *)
(** * Part III: the properties on the sample data *)
(* ===================================================================== *)

Section Instances.
Import GoTime Sample.

(** The scenario of the specification: A (priority 5) is added before B
    (priority 10); B is taken first, then A. *)
Example queueAB_order : map ID (tasks queueAB) = ["B"; "A"].
Proof. reflexivity. Qed.

Lemma queueAB_reachable :
  queue_steps
    {| tasks := []; handlers := ∅;
       semaphore := {| semCap := DefaultMaxConcurrentTasks; semLen := 0 |} |}
    queueAB.
Proof.
  unfold queueAB.
  eapply queue_steps_step; [| exact (queue_add _ taskB t1 t1)].
  eapply queue_steps_step; [| exact (queue_add _ taskA t0 t0)].
  eapply queue_steps_step; [apply queue_steps_refl |].
  exact (queue_register _ "system.health" handleHealthCheck).
Defined.


(** The store of the scenario is full, and nothing in it expires. *)
Lemma stateA5B_range :
  is_range (scoreVisits runNextTick)
    (remove_expired (cleanupNow runNextTick) (data (ShortTerm stateA5B))).
Proof. unfold is_range. vm_compute. reflexivity. Defined.

Lemma Set_stays_within_capacity_witness :
  1 <= maxSize (ShortTerm stateA5B) ∧
  len_data (data (ShortTerm stateA5B)) = 2 ∧
  len_data (data (Set_ (ShortTerm stateA5B) "c"
                    (remembered_item "value of c" 0 t2 t2 t2) runNextTick).2) <= 2.
Proof.
  split; [by vm_compute |]. split; [reflexivity |].
  assert (Hcap : 1 <= maxSize (ShortTerm stateA5B)) by (by vm_compute).
  exact (proj2 (proj2 (proj2 (proj2 (proj2
    (Set_stays_within_capacity (ShortTerm stateA5B) "c"
       (remembered_item "value of c" 0 t2 t2 t2) runNextTick Hcap stateA5B_range)))))).
Defined.

(** C2 as stated fails: a configuration with a short-term capacity of 0
    passes [Validate], and the first [Set] leaves one item in a store of
    capacity 0. *)
Lemma Set_exceeds_capacity_zero :
  let m := ShortTerm (NewState (Any := string) (configShort 0) t0) in
  let item := remembered_item "v" 0 t0 t0 t0 in
  Validate (configShort 0) = None ∧
  maxSize m = 0 ∧
  is_range (scoreVisits (noRun t0)) (remove_expired (cleanupNow (noRun t0)) (data m)) ∧
  len_data (data (Set_ m "k" item (noRun t0)).2) = 1 ∧
  ¬ len_data (data (Set_ m "k" item (noRun t0)).2) <= maxSize m.
Proof.
  simpl. split_and!; try reflexivity.
  - unfold is_range. vm_compute. reflexivity.
  - vm_compute. intros H. by apply H.
Qed.

(** The scenario of the specification when the clock moves between the
    insertion of [b] and that of [c]: [b] is evicted and [a] stays. *)
Example cleanup_evicts_never_accessed_item :
  (score_items (scoreVisits runNextTick) (data (ShortTerm stateA5B))).*1 = ["a"; "b"] ∧
  PrimFloat.ltb (score (t2 + 1) (remembered_item "value of b" 0 t2 t2 t2))
                (PrimFloat.of_uint63 1) = true ∧
  data (ShortTerm stateNextTick) !! "b" = None ∧
  is_Some (data (ShortTerm stateNextTick) !! "a") ∧
  is_Some (data (ShortTerm stateNextTick) !! "c").
Proof. split_and!; try (vm_compute; reflexivity); vm_compute; eauto. Qed.

(** C3 fails on the code: capacity 2, [a] read five times, [b] just stored
    and never read, [c] stored before the clock moves.  The time since the
    last access of [b] is 0, its score is 0/0, which is not a number and is
    less than nothing; the sort leaves [a] in front and [a] is evicted. *)
Theorem cleanup_evicts_accessed_item_on_zero_elapsed_time :
  maxSize (ShortTerm stateA5B) = 2 ∧
  (AccessCount <$> data (ShortTerm stateA5B) !! "a") = Some 5 ∧
  (AccessCount <$> data (ShortTerm stateA5B) !! "b") = Some 0 ∧
  is_range (scoreVisits runSameTick)
    (remove_expired (cleanupNow runSameTick) (data (ShortTerm stateA5B))) ∧
  ((λ item, PrimFloat.is_nan (score t2 item)) <$> data (ShortTerm stateA5B) !! "b")
    = Some true ∧
  ((λ item, PrimFloat.eqb (score t2 item) PrimFloat.zero) <$> data (ShortTerm stateA5B) !! "b")
    = Some false ∧
  data (ShortTerm stateSameTick) !! "a" = None ∧
  is_Some (data (ShortTerm stateSameTick) !! "b") ∧
  is_Some (data (ShortTerm stateSameTick) !! "c").
Proof.
  split; [vm_compute; reflexivity |].
  split; [vm_compute; reflexivity |].
  split; [vm_compute; reflexivity |].
  split; [unfold is_range; vm_compute; reflexivity |].
  split; [vm_compute; reflexivity |].
  split; [vm_compute; reflexivity |].
  split; [vm_compute; reflexivity |].
  split; vm_compute; eauto.
Qed.

Lemma Process_drops_expired_task_witness :
  tasks queueLate = [taskLate] ∧
  Deadline taskLate = Some t1 ∧
  t1 < tExpiry (at_ t2) ∧
  let r := Process queueLate Background state0 (at_ t2) PickFirst in
  r.1.1.1 = Returned (Some (ErrTaskExpired "late")) ∧ tasks r.1.1.2 = [] ∧ r.2 = [].
Proof.
  assert (Hpast : t1 < tExpiry (at_ t2)) by (by vm_compute).
  split_and!; [reflexivity | reflexivity | exact Hpast |].
  pose proof (Process_drops_expired_task queueLate Background state0 (at_ t2) PickFirst
                taskLate [] t1 eq_refl eq_refl Hpast) as (H1 & H2 & _ & _ & _ & H6).
  by split_and!.
Defined.



Lemma poolBusy_reachable : pool_steps (idle_pool processorOne) poolBusy.
Proof.
  eapply pool_steps_step;
    [| exact (pool_acquire {| slots := semaphore processorOne; calls := [Waiting; Waiting] |}
                0%nat eq_refl eq_refl)].
  eapply pool_steps_step;
    [| exact (pool_enter {| slots := semaphore processorOne; calls := [Waiting] |})].
  eapply pool_steps_step; [apply pool_steps_refl |].
  exact (pool_enter (idle_pool processorOne)).
Defined.


Lemma Stop_cancels_and_rejects_tasks_witness :
  isRunning agentWithTask = true ∧
  (Stop agentWithTask t1 t1).1 = None ∧
  Agent_AddTask (Stop agentWithTask t1 t1).2 taskB t1 t1
    = (Some ErrAgentNotRunning, (Stop agentWithTask t1 t1).2).
Proof.
  split; [reflexivity |].
  destruct (Stop_cancels_and_rejects_tasks agentWithTask t1 t1 eq_refl)
    as (Hnil & _ & _ & _ & _ & Hadd & _).
  split; [exact Hnil | exact (Hadd taskB t1 t1)].
Defined.

Lemma systemStopped_reachable : steps (boot agent0) systemStopped.
Proof.
  eapply steps_step;
    [| exact (step_Stop
                {| agent := agentWithTask; runLoops := [AtSelect true];
                   cleanupLoops := [AtSelect false];
                   observed := [StartReturned None; AddTaskReturned None] |}
                t1 t1 None agentStopped eq_refl)].
  eapply steps_step;
    [| exact (step_run_tick
                {| agent := agentWithTask; runLoops := [AtSelect false];
                   cleanupLoops := [AtSelect false];
                   observed := [StartReturned None; AddTaskReturned None] |}
                0%nat (AtSelect false) eq_refl)].
  eapply steps_step;
    [| exact (step_AddTask
                {| agent := agentRunning; runLoops := [AtSelect false];
                   cleanupLoops := [AtSelect false];
                   observed := [StartReturned None] |}
                taskA t0 t0 None agentWithTask eq_refl)].
  eapply steps_step; [apply steps_refl |].
  exact (step_Start (boot agent0) t0 t0 t0 None agentRunning eq_refl).
Qed.

(** C5 as stated fails: [Stop] has returned, and the run loop, finding both
    the cancellation and a tick ready, takes the tick and calls [Process],
    which takes the queued task and runs its handler. *)
Lemma Process_starts_after_Stop_returned :
  steps (boot agent0) systemLate ∧
  observed systemLate
    = [StartReturned None; AddTaskReturned None; StopReturned None;
       ProcessStarted; ProcessEvents lateProcess.2] ∧
  (∃ taskCtx timeout task' result,
     lateProcess.2 = [EvAcquire; EvInvoke taskCtx timeout task'; EvResult result; EvRelease]
     ∧ ID task' = "A") ∧
  tasks (processor agentStopped) = [taskA] ∧
  tasks (processor (agent systemLate)) = [].
Proof.
  split_and!.
  - eapply steps_step; [exact systemStopped_reachable |].
    exact (step_run_process systemStopped 0%nat (at_ t2) PickFirst None
             lateProcess.1.1.2 lateProcess.1.2 lateProcess.2 eq_refl eq_refl).
  - reflexivity.
  - eexists _, _, _, _. split; [vm_compute; reflexivity | reflexivity].
  - reflexivity.
  - reflexivity.
Qed.
End Instances.

(* ===================================================================== *)
(** * Part IV: further properties of the code *)
(* ===================================================================== *)

(** ** Sorting an already sorted slice with one more element *)
Section StableInsertion.
Context {A : Type} (less : A → A → bool).
Import GoSort.

(** Where [sift] puts the new element: behind the neighbours it is less
    than, in front of the first one it is not less than. *)
Lemma sift_split x rp :
  ∃ rp1 rp2,
    rp = rp1 ++ rp2 ∧
    sift less x rp = rp1 ++ x :: rp2 ∧
    Forall (λ y, less x y = true) rp1 ∧
    (∀ y, head rp2 = Some y → less x y = false).
Proof.
  induction rp as [| y rp IH]; simpl.
  - exists [], []. split_and!; [done | done | constructor | done].
  - destruct (less x y) eqn:Hxy.
    + destruct IH as (rp1 & rp2 & -> & -> & Hall & Hhead).
      exists (y :: rp1), rp2. split_and!; [done | done | by constructor | done].
    + exists [], (y :: rp). split_and!; [done | done | constructor |].
      intros y' [= <-]. done.
Qed.

(** On a sorted slice the sort moves nothing. *)
Lemma fold_sift_sorted_input l rp :
  StronglySorted (may_precede less) (rev rp ++ l) →
  fold_left (λ rp x, sift less x rp) l rp = rev l ++ rp.
Proof.
  revert rp. induction l as [| x l IH]; intros rp Hs; simpl; [done |].
  assert (Hsift : sift less x rp = x :: rp).
  { destruct rp as [| y rp']; simpl; [done |].
    assert (Hyx : may_precede less y x).
    { eapply (StronglySorted_app_1_elem_of _ (rev (y :: rp')) (x :: l)); [exact Hs | |].
      - simpl. apply elem_of_app. right. by apply list_elem_of_singleton.
      - by left. }
    unfold may_precede in Hyx. by rewrite Hyx. }
  rewrite Hsift. rewrite IH.
  - by rewrite <- app_assoc.
  - simpl. by rewrite <- app_assoc.
Qed.

Lemma insertion_sort_sorted_input l :
  StronglySorted (may_precede less) l → insertion_sort less l = l.
Proof.
  intros Hs. unfold insertion_sort.
  rewrite (fold_sift_sorted_input l []) by done.
  by rewrite app_nil_r, rev_involutive.
Qed.

Lemma insertion_sort_snoc l x :
  StronglySorted (may_precede less) l →
  insertion_sort less (l ++ [x]) = rev (sift less x (rev l)).
Proof.
  intros Hs. unfold insertion_sort. rewrite fold_left_app. simpl.
  rewrite (fold_sift_sorted_input l []) by done.
  by rewrite app_nil_r.
Qed.

Hypothesis less_negtrans : ∀ x y z, less x y = false → less y z = false → less x z = false.

(** The new element goes behind every element it is not less than and in
    front of those it is less than; the others keep their places. *)
Lemma insertion_sort_snoc_split l x :
  StronglySorted (may_precede less) l →
  ∃ before after,
    l = before ++ after ∧
    insertion_sort less (l ++ [x]) = before ++ x :: after ∧
    Forall (λ y, less x y = false) before ∧
    Forall (λ y, less x y = true) after.
Proof.
  intros Hs. rewrite insertion_sort_snoc by done.
  destruct (sift_split x (rev l)) as (rp1 & rp2 & Hrev & -> & Hall & Hhead).
  assert (Hl : l = rev rp2 ++ rev rp1).
  { rewrite <- rev_app_distr, <- Hrev. by rewrite rev_involutive. }
  exists (rev rp2), (rev rp1). split_and!.
  - done.
  - rewrite rev_app_distr. simpl. by rewrite <- app_assoc.
  - destruct rp2 as [| y rp2']; [constructor |].
    specialize (Hhead y eq_refl).
    apply Forall_forall. intros z Hz.
    apply list_elem_of_In, in_rev, list_elem_of_In in Hz.
    apply elem_of_cons in Hz as [-> | Hz]; [done |].
    apply (less_negtrans x y z); [done |].
    rewrite Hl in Hs. simpl in Hs. rewrite <- !app_assoc in Hs.
    change (may_precede less z y).
    apply (StronglySorted_app_1_elem_of _ (rev rp2') ([y] ++ rev rp1)); [exact Hs | |].
    + apply list_elem_of_In. rewrite <- in_rev. by apply list_elem_of_In.
    + by left.
  - apply Forall_forall. intros z Hz.
    apply list_elem_of_In, in_rev, list_elem_of_In in Hz.
    rewrite Forall_forall in Hall. by apply Hall.
Qed.
End StableInsertion.

(** ** More about the queue and about [Process] *)
Section MoreQueueFacts.
Context {Any : Type}.
Import GoTime GoSort.
Implicit Types (p : Processor Any) (task : Task Any) (state : State Any).


Lemma semLen_recv_send (s : Semaphore) : recv (send s) = s.
Proof. by destruct s. Qed.

(** What [Process] does once its task has a slot. *)
Lemma Process_run p ctx state clk pick task rest :
  tasks p = task :: rest →
  deadline_passed task (tExpiry clk) = false →
  can_send (semaphore p) = true →
  ctxDone ctx = false ∨ pick = PickFirst →
  Process p ctx state clk pick =
    let p1 := with_semaphore (with_tasks p rest) (send (semaphore p)) in
    let '(err, state', evs) := executeTask p1 ctx state task clk in
    (Returned err, with_semaphore p1 (recv (semaphore p1)), state',
     EvAcquire :: evs ++ [EvRelease]).
Proof.
  intros Hq Hlive Hroom Hpick. unfold Process. rewrite Hq, Hlive. simpl.
  rewrite Hroom. destruct (ctxDone ctx); [| done].
  by destruct Hpick as [? | ->].
Qed.

(** X2: whatever happens to the task (it runs, fails, is expired, is given
    up on a cancelled context, or its call waits for a slot), a call of
    [Process] removes exactly the head of the queue and nothing else, keeps
    the handlers, and leaves the semaphore with the tokens it found; on an
    empty queue it changes nothing and returns the nil error. *)
Theorem Process_takes_head_and_returns_slot p ctx state clk pick :
  let r := Process p ctx state clk pick in
  tasks r.1.1.2 = tail (tasks p) ∧
  handlers r.1.1.2 = handlers p ∧
  semaphore r.1.1.2 = semaphore p ∧
  (tasks p = [] → r = (Returned None, p, state, [])).
Proof.
  intros r. unfold r. split; [apply Process_tasks |].
  unfold Process. destruct (tasks p) as [| task rest] eqn:Hq; [done |].
  destruct (deadline_passed task (tExpiry clk)); [done |].
  simpl.
  destruct (executeTask _ ctx state task clk) as [[err state'] evs].
  destruct (can_send _), (ctxDone ctx), pick; simpl;
    rewrite ?semLen_recv_send; done.
Qed.

(** X3: a task whose type has no handler is taken from the queue and lost:
    the call takes a slot and gives it back, invokes nothing, leaves the
    state alone and returns the unknown-task-type error for that type. *)
Theorem Process_unknown_task_type p ctx state clk pick task rest :
  tasks p = task :: rest →
  deadline_passed task (tExpiry clk) = false →
  can_send (semaphore p) = true →
  ctxDone ctx = false ∨ pick = PickFirst →
  handlers p !! Type_ task = None →
  let r := Process p ctx state clk pick in
  r.1.1.1 = Returned (Some (ErrUnknownTaskType (Type_ task))) ∧
  tasks r.1.1.2 = rest ∧
  r.1.2 = state ∧
  r.2 = [EvAcquire; EvRelease].
Proof.
  intros Hq Hlive Hroom Hpick Hnone r. unfold r.
  rewrite (Process_run _ _ _ _ _ _ _ Hq Hlive Hroom Hpick).
  cbv zeta. unfold executeTask. simpl. unfold TaskHandler in *. rewrite Hnone. done.
Qed.

(** X4: when the task is not expired but no slot is free, or the context is
    done and the [select] takes that case, the task has left the queue all
    the same and no handler sees it: the call returns the context's error
    if the context is done and waits otherwise. *)
Theorem Process_loses_task_without_slot p ctx state clk pick task rest :
  tasks p = task :: rest →
  deadline_passed task (tExpiry clk) = false →
  can_send (semaphore p) = false ∨ (ctxDone ctx = true ∧ pick = PickSecond) →
  let r := Process p ctx state clk pick in
  r.1.1.1 = (if ctxDone ctx then Returned (ctxErr ctx) else Blocked) ∧
  (ctxDone ctx = true → is_Some (ctxErr ctx)) ∧
  tasks r.1.1.2 = rest ∧
  r.1.2 = state ∧
  r.2 = [].
Proof.
  intros Hq Hlive Hcase r. unfold r, Process. rewrite Hq, Hlive. simpl.
  assert (Hdone : ctxDone ctx = true → is_Some (ctxErr ctx)).
  { unfold ctxDone. intros H. by apply bool_decide_eq_true in H. }
  destruct (executeTask _ ctx state task clk) as [[err state'] evs].
  destruct Hcase as [Hfull | [Hd ->]].
  - rewrite Hfull. destruct (ctxDone ctx); split_and!; auto.
  - rewrite Hd. destruct (can_send _); split_and!; auto.
Qed.

Lemma Sub_in_range t u : minDuration <= Sub t u <= maxDuration.
Proof.
  unfold Sub, minDuration, maxDuration, GoInt.min_int64, GoInt.max_int64.
  destruct (Z.ltb_spec (t - u) (- 2 ^ 63)); [lia |].
  destruct (Z.ltb_spec (2 ^ 63 - 1) (t - u)); lia.
Qed.

Lemma Sub_nonpos t u : t <= u → Sub t u <= 0.
Proof.
  unfold Sub, minDuration, maxDuration, GoInt.min_int64, GoInt.max_int64. intros Hle.
  destruct (Z.ltb_spec (t - u) (- 2 ^ 63)); [lia |].
  destruct (Z.ltb_spec (2 ^ 63 - 1) (t - u)); lia.
Qed.

(** X5: a deadline that is reached between the expiry check and the
    computation of the timeout (or is exactly the clock's reading at both)
    does not stop the task: its handler is invoked, with a timeout that is
    not positive and, under a parent context without deadline that is not
    done, a context that has already failed with deadline-exceeded. *)
Theorem Process_runs_handler_under_expired_context
    p ctx state clk pick task rest handler d :
  tasks p = task :: rest →
  Deadline task = Some d →
  tExpiry clk <= d <= tUntil clk →
  can_send (semaphore p) = true →
  ctxErr ctx = None →
  ctxDeadline ctx = None →
  handlers p !! Type_ task = Some handler →
  ∃ taskCtx timeout task' result,
    (Process p ctx state clk pick).2
      = [EvAcquire; EvInvoke taskCtx timeout task'; EvResult result; EvRelease] ∧
    timeout <= 0 ∧
    ctxErr taskCtx = Some ErrContextDeadlineExceeded ∧
    ID task' = ID task.
Proof.
  intros Hq Hd [Hlo Hhi] Hroom Herr Hnodl Hh.
  assert (Hlive : deadline_passed task (tExpiry clk) = false).
  { unfold deadline_passed, After. rewrite Hd. apply Z.ltb_ge. lia. }
  assert (Hnot : ctxDone ctx = false).
  { unfold ctxDone. rewrite Herr. done. }
  rewrite (Process_run _ _ _ _ _ _ _ Hq Hlive Hroom (or_introl Hnot)).
  cbv zeta. unfold executeTask. simpl. unfold TaskHandler in *. rewrite Hh.
  unfold getTaskTimeout. simpl. rewrite Hd.
  destruct (handler _ state _) as [err state'].
  eexists _, _, _, _. split; [reflexivity |].
  pose proof (Sub_nonpos d (tUntil clk) Hhi) as Hnp.
  pose proof (Sub_in_range d (tUntil clk)) as Hrange.
  split_and!; [exact Hnp | | done].
  unfold WithTimeout. rewrite Hnodl, Herr. simpl.
  unfold Until at 1, Add.
  rewrite Sub_exact by (unfold Until in *; lia).
  replace (tCtx clk + Until (tUntil clk) d - tCtx clk) with (Until (tUntil clk) d) by lia.
  unfold Until. apply Z.leb_le in Hnp. by rewrite Hnp.
Qed.

(** X6: registering a handler for a type replaces the one registered
    before, changes no other type and does not touch the queue or the
    semaphore. *)
Theorem RegisterHandler_last_wins p taskType (h1 h2 : TaskHandler Any) :
  let p2 := RegisterHandler (RegisterHandler p taskType h1) taskType h2 in
  p2 = RegisterHandler p taskType h2 ∧
  handlers p2 !! taskType = Some h2 ∧
  (∀ other, other ≠ taskType → handlers p2 !! other = handlers p !! other) ∧
  tasks p2 = tasks p ∧
  semaphore p2 = semaphore p.
Proof.
  intros p2. unfold p2, RegisterHandler. simpl. split_and!; try done.
  - by rewrite insert_insert_eq.
  - apply lookup_insert_eq.
  - intros other Hne. by rewrite !lookup_insert_ne.
Qed.
End MoreQueueFacts.

(** ** The queue statistics *)
Section QueueStatusFacts.
Context {Any : Type}.
Implicit Types (p : Processor Any) (ts : list (Task Any)).

Lemma tally_le_length {K} `{EqDecision K} (f : Task Any → K) k ts :
  (tally f k ts <= length ts)%nat.
Proof.
  unfold tally. induction ts as [| t ts IH]; simpl; [lia |].
  destruct (bool_decide (f t = k)); simpl; lia.
Qed.

Lemma counted_default n : default 0 (counted n) = Z.of_nat n.
Proof. unfold counted. destruct (decide (n = 0%nat)) as [-> | ?]; done. Qed.

(** Counting the keys of a list into a map of counters. *)
Lemma bump_fold_lookup {K} `{Countable K} (f : Task Any → K) k ts (m : gmap K Z) c0 :
  m !! k = counted c0 →
  Z.of_nat (c0 + tally f k ts) <= GoInt.max_int64 →
  fold_left (λ m t, bump (f t) m) ts m !! k = counted (c0 + tally f k ts).
Proof.
  revert m c0. induction ts as [| t ts IH]; intros m c0 Hm Hmax; simpl.
  - unfold tally. simpl. by rewrite Nat.add_0_r.
  - unfold tally in *. simpl in *.
    destruct (bool_decide_reflect (f t = k)) as [Heq | Hne]; simpl in *.
    + rewrite (IH _ (S c0)).
      * f_equal. lia.
      * unfold bump. rewrite Heq, lookup_insert_eq, Hm, counted_default.
        rewrite incr_below_max by (unfold GoInt.min_int64, GoInt.max_int64 in *; lia).
        unfold counted. destruct (decide (S c0 = 0%nat)); [lia |]. f_equal. lia.
      * lia.
    + rewrite (IH _ c0); [done | | done].
      unfold bump. by rewrite lookup_insert_ne.
Qed.

Lemma GetQueueStatus_fold ts (st : QueueStatus) :
  let r := fold_left
    (λ status task,
       {| TotalTasks := TotalTasks status;
          PriorityLevels := bump (Priority task) (PriorityLevels status);
          TaskTypes := bump (Type_ task) (TaskTypes status) |}) ts st in
  TotalTasks r = TotalTasks st ∧
  PriorityLevels r = fold_left (λ m t, bump (Priority t) m) ts (PriorityLevels st) ∧
  TaskTypes r = fold_left (λ m t, bump (Type_ t) m) ts (TaskTypes st).
Proof.
  revert st. induction ts as [| t ts IH]; intros st; simpl; [done |].
  exact (IH {| TotalTasks := TotalTasks st;
               PriorityLevels := bump (Priority t) (PriorityLevels st);
               TaskTypes := bump (Type_ t) (TaskTypes st) |}).
Qed.

(** X7: [GetQueueStatus] reports the length of the queue, and for every
    priority and every task type the number of queued tasks that have it; a
    priority or type that no queued task has is absent from the breakdown. *)
Theorem GetQueueStatus_counts_tasks p :
  Z.of_nat (length (tasks p)) <= GoInt.max_int64 →
  let status := GetQueueStatus p in
  TotalTasks status = GetQueueLength p ∧
  (∀ priority, PriorityLevels status !! priority
                 = counted (tally Priority priority (tasks p))) ∧
  (∀ taskType, TaskTypes status !! taskType
                 = counted (tally Type_ taskType (tasks p))).
Proof.
  intros Hlen status. unfold status, GetQueueStatus.
  destruct (GetQueueStatus_fold (tasks p)
              {| TotalTasks := Z.of_nat (length (tasks p));
                 PriorityLevels := ∅; TaskTypes := ∅ |}) as (Htotal & Hprio & Htype).
  simpl in *. split_and!.
  - exact Htotal.
  - intros priority. rewrite Hprio.
    rewrite (bump_fold_lookup Priority priority (tasks p) ∅ 0%nat); [done | done |].
    pose proof (tally_le_length Priority priority (tasks p)). lia.
  - intros taskType. rewrite Htype.
    rewrite (bump_fold_lookup Type_ taskType (tasks p) ∅ 0%nat); [done | done |].
    pose proof (tally_le_length Type_ taskType (tasks p)). lia.
Qed.
End QueueStatusFacts.

(** ** More about the memory store *)
Section MoreMemoryFacts.
Context {Any : Type}.
Import GoTime GoSort.
Implicit Types (m : MemoryStore Any) (item : MemoryItem Any)
  (d : gmap string (MemoryItem Any)) (s : State Any).

(** X8: [Delete] on an absent key fails with [ErrMemoryNotFound] and leaves
    the store as it is; on a present key it returns the nil error, the key
    is absent afterwards, every other key keeps its item, and the store
    holds one item less. *)
Theorem Delete_removes_exactly_the_key m key :
  let r := Delete m key in
  match data m !! key with
  | None => r = (Some ErrMemoryNotFound, m)
  | Some _ =>
      r.1 = None ∧
      data r.2 !! key = None ∧
      (∀ key', key' ≠ key → data r.2 !! key' = data m !! key') ∧
      len_data (data r.2) = len_data (data m) - 1 ∧
      maxSize r.2 = maxSize m
  end.
Proof.
  intros r. unfold r, Delete. destruct (data m !! key) as [item |] eqn:Hitem; [| done].
  simpl. split_and!; try done.
  - apply lookup_delete_eq.
  - intros key' Hne. by apply lookup_delete_ne.
  - unfold len_data. rewrite map_size_delete_Some by eauto.
    assert (size (data m) ≠ 0%nat).
    { intros H0. apply map_size_empty_inv in H0. rewrite H0 in Hitem.
      by rewrite lookup_empty in Hitem. }
    lia.
Qed.

(** X9: [Get] never adds a key and never changes the capacity; the store
    keeps its size, except that reading an expired item removes that item. *)
Theorem Get_never_grows_the_store m key nowCheck nowAccess :
  let r := Get m key nowCheck nowAccess in
  len_data (data r.2)
    = match r.1 with
      | inl ErrMemoryExpired => len_data (data m) - 1
      | _ => len_data (data m)
      end ∧
  (∀ key', is_Some (data r.2 !! key') → is_Some (data m !! key')) ∧
  maxSize r.2 = maxSize m.
Proof.
  intros r. unfold r, Get. destruct (data m !! key) as [item |] eqn:Hitem; simpl.
  - destruct (is_expired nowCheck item); simpl.
    + split_and!; [| | done].
      * unfold len_data. rewrite map_size_delete_Some by eauto.
        assert (size (data m) ≠ 0%nat).
        { intros H0. apply map_size_empty_inv in H0. rewrite H0 in Hitem.
          by rewrite lookup_empty in Hitem. }
        lia.
      * intros key' [x Hx]. apply lookup_delete_Some in Hx as [_ Hx]. eauto.
    + split_and!; [| | done].
      * unfold len_data. by rewrite map_size_insert_Some by eauto.
      * intros key' [x Hx]. apply lookup_insert_Some in Hx as [[<- _] | [_ Hx]]; eauto.
  - done.
Qed.

Lemma evict_at_least cap items d :
  cap - 1 <= len_data d → cap - 1 <= len_data (evict cap items d).
Proof.
  revert d. induction items as [| [key sc] rest IH]; intros d Hd; simpl; [done |].
  destruct (Z.leb_spec cap (len_data d)) as [Hfull | Hroom]; [| done].
  apply IH. unfold len_data in *. rewrite map_size_delete.
  destruct (d !! key); simpl; lia.
Qed.

(** X10: [cleanup] only deletes: whatever it leaves was in the store with
    the same item, and is not expired at the clock reading of the run; the
    capacity and the persistence flag are kept; and when the store is below
    its capacity once the expired items are gone, every item that is not
    expired stays. *)
Theorem cleanup_only_deletes_and_leaves_nothing_expired m run :
  (∀ key item, data (cleanup m run) !! key = Some item →
     data m !! key = Some item ∧ is_expired (cleanupNow run) item = false) ∧
  maxSize (cleanup m run) = maxSize m ∧
  persistent (cleanup m run) = persistent m ∧
  (len_data (remove_expired (cleanupNow run) (data m)) < maxSize m →
   ∀ key item, data m !! key = Some item → is_expired (cleanupNow run) item = false →
     data (cleanup m run) !! key = Some item).
Proof.
  unfold cleanup, remove_expired.
  destruct (Z.leb_spec (maxSize m)
              (len_data (filter (λ kv, is_expired (cleanupNow run) kv.2 = false) (data m))))
    as [Hfull | Hroom]; simpl; split_and!; try done.
  - intros key item H. apply evict_lookup in H.
    apply map_lookup_filter_Some in H. simpl in H. tauto.
  - lia.
  - intros key item H. apply map_lookup_filter_Some in H. simpl in H. tauto.
  - intros _ key item Hitem Hlive. by apply map_lookup_filter_Some.
Qed.

(** X11: when the store is still at or over a capacity of at least 1 after
    the expired items are gone, the eviction stops as soon as there is room
    for one item: [cleanup] leaves exactly [maxSize - 1] items. *)
Theorem cleanup_makes_room_for_one_item m run :
  1 <= maxSize m →
  is_range (scoreVisits run) (remove_expired (cleanupNow run) (data m)) →
  maxSize m <= len_data (remove_expired (cleanupNow run) (data m)) →
  len_data (data (cleanup m run)) = maxSize m - 1.
Proof.
  intros Hcap Hrange Hfull.
  destruct (cleanup_below m run Hcap Hrange) as [Hlt _].
  assert (maxSize m - 1 <= len_data (data (cleanup m run))); [| lia].
  unfold cleanup. apply Z.leb_le in Hfull as Hb. rewrite Hb. simpl.
  apply evict_at_least. lia.
Qed.
End MoreMemoryFacts.

(** ** Remembering, recalling, forgetting *)
Section MoreStateFacts.
Context {Any : Type}.
Import GoTime.
Implicit Types (s : State Any) (m : MemoryStore Any).

Lemma store_of_None s memoryType :
  store_of s memoryType = None ↔ memoryType < 0 ∨ 2 < memoryType.
Proof.
  unfold store_of, MemoryTypeShortTerm, MemoryTypeLongTerm, MemoryTypeVolatile.
  destruct (Z.eqb_spec memoryType 0); [split; [done | lia] |].
  destruct (Z.eqb_spec memoryType 1); [split; [done | lia] |].
  destruct (Z.eqb_spec memoryType 2); [split; [done | lia] |].
  split; [lia | done].
Qed.

Lemma with_store_same s memoryType m :
  store_of s memoryType = Some m → with_store s memoryType m = s.
Proof.
  unfold store_of, with_store, MemoryTypeShortTerm, MemoryTypeLongTerm, MemoryTypeVolatile.
  destruct s; simpl.
  destruct (Z.eqb_spec memoryType 0) as [-> |]; [by intros [= ->] |].
  destruct (Z.eqb_spec memoryType 1) as [-> |]; [by intros [= ->] |].
  destruct (Z.eqb_spec memoryType 2) as [-> |]; [by intros [= ->] | done].
Qed.

Lemma store_of_with_store_ne s memoryType m other :
  other ≠ memoryType →
  store_of (with_store s memoryType m) other = store_of s other.
Proof.
  unfold store_of, with_store, MemoryTypeShortTerm, MemoryTypeLongTerm, MemoryTypeVolatile.
  intros Hne. simpl.
  destruct (Z.eqb_spec other 0) as [-> |].
  { destruct (Z.eqb_spec memoryType 0); [lia | done]. }
  destruct (Z.eqb_spec other 1) as [-> |].
  { destruct (Z.eqb_spec memoryType 1); [lia | done]. }
  destruct (Z.eqb_spec other 2) as [-> |]; [| done].
  destruct (Z.eqb_spec memoryType 2); [lia | done].
Qed.

Lemma Remember_store s key (value : Any) memoryType ttl tExpiry tCreated tAccess run m :
  store_of s memoryType = Some m →
  (Remember s key value memoryType ttl tExpiry tCreated tAccess run).1 = None ∧
  ∃ m', store_of (Remember s key value memoryType ttl tExpiry tCreated tAccess run).2
          memoryType = Some m' ∧
        data m' !! key = Some (remembered_item value ttl tExpiry tCreated tAccess).
Proof.
  intros Hm. unfold Remember. rewrite Hm. simpl. split; [done |].
  eexists. split; [by eapply store_of_with_store |]. simpl. apply lookup_insert_eq.
Qed.

Lemma Recall_store s key memoryType nowCheck nowAccess m :
  store_of s memoryType = Some m →
  Recall s key memoryType nowCheck nowAccess
    = ((Get m key nowCheck nowAccess).1,
       with_store s memoryType (Get m key nowCheck nowAccess).2).
Proof.
  intros Hm. unfold Recall. rewrite Hm. by destruct (Get m key nowCheck nowAccess).
Qed.

Lemma Forget_store s key memoryType m :
  store_of s memoryType = Some m →
  Forget s key memoryType = ((Delete m key).1, with_store s memoryType (Delete m key).2).
Proof.
  intros Hm. unfold Forget. rewrite Hm. by destruct (Delete m key).
Qed.

(** X12: a value remembered in a valid memory type is what [Recall]
    returns for the key, as long as the clock of the recall is not after the
    expiry (there is none when the ttl is not positive), and the item is
    then marked as accessed once; a recall after the expiry fails with
    [ErrMemoryExpired], and from then on the key is not found. *)
Theorem Remember_then_Recall s key (value : Any) memoryType ttl
    tExpiry tCreated tAccess run nowCheck nowAccess :
  0 <= memoryType <= 2 →
  let s1 := (Remember s key value memoryType ttl tExpiry tCreated tAccess run).2 in
  let r := Recall s1 key memoryType nowCheck nowAccess in
  if decide (0 < ttl ∧ tExpiry + ttl < nowCheck) then
    r.1 = inl ErrMemoryExpired ∧
    ∀ nowCheck' nowAccess',
      (Recall r.2 key memoryType nowCheck' nowAccess').1 = inl ErrMemoryNotFound
  else
    r.1 = inr value ∧
    ∃ m item,
      store_of r.2 memoryType = Some m ∧ data m !! key = Some item ∧
      Value item = value ∧ AccessCount item = 1 ∧ LastAccess item = nowAccess.
Proof.
  intros Hty s1 r.
  destruct (store_of s memoryType) as [m |] eqn:Hm;
    [| apply store_of_None in Hm; lia].
  destruct (Remember_store s key value memoryType ttl tExpiry tCreated tAccess run m Hm)
    as (_ & m1 & Hm1 & Hitem).
  fold s1 in Hm1. unfold r. rewrite (Recall_store _ _ _ _ _ _ Hm1). simpl.
  unfold Get. rewrite Hitem. unfold is_expired, After, Add. simpl.
  set (expired := match (if 0 <? ttl then Some (Add tExpiry ttl) else None) with
                  | Some e => e <? nowCheck
                  | None => false
                  end).
  assert (Hexpired : expired = true ↔ 0 < ttl ∧ tExpiry + ttl < nowCheck).
  { unfold expired, Add. destruct (Z.ltb_spec 0 ttl).
    - rewrite Z.ltb_lt. tauto.
    - split; [done | lia]. }
  destruct (decide (0 < ttl ∧ tExpiry + ttl < nowCheck)) as [Hlate | Hlive].
  - apply Hexpired in Hlate as ->. simpl.
    split; [done |]. intros nowCheck' nowAccess'.
    rewrite (Recall_store _ _ _ _ _ (with_data m1 (delete key (data m1)))).
    + simpl. unfold Get. simpl. by rewrite lookup_delete_eq.
    + by eapply store_of_with_store.
  - destruct expired; [by destruct Hlive; apply Hexpired |]. simpl.
    split; [done |]. eexists _, _.
    split; [by eapply store_of_with_store |]. simpl.
    split; [apply lookup_insert_eq |]. done.
Qed.

(** X13: [Forget] on a key the chosen store does not hold fails with
    [ErrMemoryNotFound] and leaves the state as it is; on a key it holds
    (so always right after [Remember]) it returns the nil error, and then
    [Recall] and a second [Forget] do not find the key. *)
Theorem Forget_then_not_found s key memoryType m :
  store_of s memoryType = Some m →
  let r := Forget s key memoryType in
  (data m !! key = None → r = (Some ErrMemoryNotFound, s)) ∧
  (is_Some (data m !! key) →
     r.1 = None ∧
     (∀ nowCheck nowAccess,
        (Recall r.2 key memoryType nowCheck nowAccess).1 = inl ErrMemoryNotFound) ∧
     (Forget r.2 key memoryType).1 = Some ErrMemoryNotFound) ∧
  (∀ (value : Any) ttl tExpiry tCreated tAccess run,
     (Forget (Remember s key value memoryType ttl tExpiry tCreated tAccess run).2
        key memoryType).1 = None).
Proof.
  intros Hm r. unfold r. rewrite (Forget_store _ _ _ _ Hm). split_and!.
  - intros Hnone. unfold Delete. rewrite Hnone. simpl. f_equal.
    by apply with_store_same.
  - intros [item Hitem]. unfold Delete. rewrite Hitem. simpl.
    assert (Hm' : store_of (with_store s memoryType (with_data m (delete key (data m))))
                    memoryType = Some (with_data m (delete key (data m)))).
    { by eapply store_of_with_store. }
    split_and!; [done | |].
    + intros nowCheck nowAccess. rewrite (Recall_store _ _ _ _ _ _ Hm').
      simpl. unfold Get. simpl. by rewrite lookup_delete_eq.
    + rewrite (Forget_store _ _ _ _ Hm'). unfold Delete. simpl.
      by rewrite lookup_delete_eq.
  - intros value ttl tExpiry tCreated tAccess run.
    destruct (Remember_store s key value memoryType ttl tExpiry tCreated tAccess run m Hm)
      as (_ & m1 & Hm1 & Hitem).
    rewrite (Forget_store _ _ _ _ Hm1). unfold Delete. by rewrite Hitem.
Qed.

(** The state after an operation on one memory type. *)
Lemma memory_operation_shape s key (value : Any) memoryType ttl
    tExpiry tCreated tAccess run nowCheck nowAccess :
  ∀ s', s' = (Remember s key value memoryType ttl tExpiry tCreated tAccess run).2 ∨
        s' = (Recall s key memoryType nowCheck nowAccess).2 ∨
        s' = (Forget s key memoryType).2 →
  s' = s ∨ ∃ m', s' = with_store s memoryType m'.
Proof.
  intros s' Hs'. unfold Remember, Recall, Forget in Hs'.
  destruct (store_of s memoryType) as [m |]; [| simpl in Hs'; left; tauto].
  destruct (Get m key nowCheck nowAccess) as [res m1].
  destruct (Delete m key) as [err m2]. simpl in Hs'.
  right. destruct Hs' as [-> | [-> | ->]]; eauto.
Qed.

(** X14: the three memory types do not interfere: [Remember], [Recall] and
    [Forget] on one of them leave the stores of the other types, and the
    status fields of the state, exactly as they were. *)
Theorem memory_types_are_independent s key (value : Any) memoryType ttl
    tExpiry tCreated tAccess run nowCheck nowAccess other :
  other ≠ memoryType →
  ∀ s', s' = (Remember s key value memoryType ttl tExpiry tCreated tAccess run).2 ∨
        s' = (Recall s key memoryType nowCheck nowAccess).2 ∨
        s' = (Forget s key memoryType).2 →
  store_of s' other = store_of s other ∧
  (Status_ s', LastError s', LastUpdated s', TasksProcessed s', LastActivity s')
    = (Status_ s, LastError s, LastUpdated s, TasksProcessed s, LastActivity s).
Proof.
  intros Hne s' Hs'.
  destruct (memory_operation_shape _ _ _ _ _ _ _ _ _ _ _ s' Hs') as [-> | [m' ->]];
    [done |].
  split; [by apply store_of_with_store_ne | done].
Qed.

(** X15: a memory type other than the three named values makes
    [Remember], [Recall] and [Forget] fail with [ErrInvalidMemoryType]
    without touching the state. *)
Theorem invalid_memory_type_is_rejected s key (value : Any) memoryType ttl
    tExpiry tCreated tAccess run nowCheck nowAccess :
  memoryType < 0 ∨ 2 < memoryType →
  Remember s key value memoryType ttl tExpiry tCreated tAccess run
    = (Some ErrInvalidMemoryType, s) ∧
  Recall s key memoryType nowCheck nowAccess = (inl ErrInvalidMemoryType, s) ∧
  Forget s key memoryType = (Some ErrInvalidMemoryType, s).
Proof.
  intros Hty. apply store_of_None with (s := s) in Hty.
  unfold Remember, Recall, Forget. by rewrite Hty.
Qed.
End MoreStateFacts.

(** ** More about the agent *)
Section MoreAgentFacts.
Context {Any : Type}.
Import GoTime.
Implicit Types (a : Agent Any) (sys : System Any) (p : Processor Any).

Lemma Validate_None_inv (c : Config) :
  Validate c = None →
  Name c ≠ "" ∧ 10 * 1000000 <= ProcessInterval c ∧ 1 <= MaxConcurrentTasks c ∧
  Second <= TaskTimeout c ∧ (EnableEncryption c = true → EncryptionKey c ≠ "").
Proof.
  unfold Validate.
  destruct (String.eqb_spec (Name c) ""); [done |].
  destruct (Z.ltb_spec (ProcessInterval c) (10 * 1000000)); [done |].
  destruct (Z.ltb_spec (MaxConcurrentTasks c) 1); [done |].
  destruct (Z.ltb_spec (TaskTimeout c) Second); [done |].
  destruct (EnableEncryption c); simpl.
  - destruct (String.eqb_spec (EncryptionKey c) ""); [done |].
    intros _. split_and!; done.
  - intros _. split_and!; done.
Qed.

(** X16: [Validate] returns the nil error exactly for the configurations
    with a name, a process interval of at least 10 ms, at least one
    concurrent task, a task timeout of at least one second and, when
    encryption is enabled, an encryption key; the memory capacities are not
    looked at.  The default configuration is one of them. *)
Theorem Validate_accepts_exactly (c : Config) :
  (Validate c = None ↔
     Name c ≠ "" ∧ 10 * 1000000 <= ProcessInterval c ∧ 1 <= MaxConcurrentTasks c ∧
     Second <= TaskTimeout c ∧ (EnableEncryption c = true → EncryptionKey c ≠ "")) ∧
  (∀ short long,
     Validate {| Name := Name c; ProcessInterval := ProcessInterval c;
                 MaxShortTermMemory := short; MaxLongTermMemory := long;
                 MaxConcurrentTasks := MaxConcurrentTasks c;
                 TaskTimeout := TaskTimeout c;
                 EnableEncryption := EnableEncryption c;
                 EncryptionKey := EncryptionKey c |} = Validate c) ∧
  Validate NewDefaultConfig = None.
Proof.
  split_and!; [| done | done].
  split; [apply Validate_None_inv |].
  intros (Hname & Hint & Hmax & Hto & Hkey). unfold Validate.
  destruct (String.eqb_spec (Name c) ""); [done |].
  destruct (Z.ltb_spec (ProcessInterval c) (10 * 1000000)); [lia |].
  destruct (Z.ltb_spec (MaxConcurrentTasks c) 1); [lia |].
  destruct (Z.ltb_spec (TaskTimeout c) Second); [lia |].
  destruct (EnableEncryption c); simpl; [| done].
  destruct (String.eqb_spec (EncryptionKey c) ""); [| done].
  by destruct Hkey.
Qed.

Lemma NewAgent_inr (c : Config) now a :
  NewAgent c now = inr a →
  Validate c = None ∧
  a = {| AgentID := "lilith-" +:+ pretty (UnixNano now);
         ctx := Background;
         config := c;
         processor :=
           RegisterHandler
             (RegisterHandler
                {| tasks := []; handlers := ∅;
                   semaphore := {| semCap := MaxConcurrentTasks c; semLen := 0 |} |}
                "system.health" handleHealthCheck)
             "system.reset" handleReset;
         state := NewState c now;
         isRunning := false;
         startTime := 0 |}.
Proof.
  unfold NewAgent, NewProcessor. destruct (Validate c) eqn:Hv; [done |].
  destruct (Z.ltb_spec (MaxConcurrentTasks c) 0); [done |].
  by intros [= <-].
Qed.


(** X18: the lifecycle calls alternate.  On an agent that is not running,
    [Stop] fails with [ErrAgentNotRunning] and [Start] succeeds; then a
    second [Start] fails with [ErrAgentAlreadyRunning] and [Stop] succeeds;
    then a second [Stop] fails again.  A failing call changes nothing.
    [GetStatus] reports working after the start and stopped after the stop,
    with the uptime counted from the clock reading of the start in both, and
    neither call touches the queue. *)
Theorem lifecycle_calls_alternate a tStart tU1 tA1 tU2 tA2 tU3 tA3 tU4 tA4 now :
  isRunning a = false →
  let started := (Start a tStart tU1 tA1).2 in
  let stopped := (Stop started tU3 tA3).2 in
  Stop a tU4 tA4 = (Some ErrAgentNotRunning, a) ∧
  (Start a tStart tU1 tA1).1 = None ∧
  Start started tU2 tA2 tA2 = (Some ErrAgentAlreadyRunning, started) ∧
  (Stop started tU3 tA3).1 = None ∧
  Stop stopped tU4 tA4 = (Some ErrAgentNotRunning, stopped) ∧
  AgentStatus.Status (GetStatus started now) = StatusWorking ∧
  AgentStatus.Status (GetStatus stopped now) = StatusStopped ∧
  AgentStatus.Uptime (GetStatus started now) = Since now tStart ∧
  AgentStatus.Uptime (GetStatus stopped now) = Since now tStart ∧
  AgentStatus.ID (GetStatus stopped now) = AgentID a ∧
  processor started = processor a ∧ processor stopped = processor a.
Proof.
  intros Hidle started stopped. unfold stopped, started, Start, Stop, GetStatus.
  rewrite Hidle. simpl. done.
Qed.

(** X19: an agent that has been stopped can be started again, and then
    accepts tasks, but it keeps the cancelled context: its status is
    working while its context is done, and a run loop launched for it can
    take the cancellation case of its [select] and return at once. *)
Theorem restarted_agent_keeps_cancelled_context a tU1 tA1 tStart tU2 tA2 :
  isRunning a = true →
  let r := Start (Stop a tU1 tA1).2 tStart tU2 tA2 in
  r.1 = None ∧
  isRunning r.2 = true ∧
  Status_ (state r.2) = StatusWorking ∧
  ctxDone (ctx r.2) = true ∧
  (∀ task tID tCreated, (Agent_AddTask r.2 task tID tCreated).1 = None) ∧
  (∀ sys i tick, agent sys = r.2 → runLoops sys !! i = Some (AtSelect tick) →
     ∃ sys', step sys sys' ∧ runLoops sys' !! i = Some Exited).
Proof.
  intros Hrun r. unfold r, Stop, Start. rewrite Hrun. simpl.
  split_and!; try done.
  - apply ctxDone_cancel.
  - intros sys i tick Hagent Hi.
    eexists. split.
    + eapply step_run_exit; [exact Hi |]. rewrite Hagent. simpl. apply ctxDone_cancel.
    + simpl. apply list_lookup_insert_eq. by eapply lookup_lt_Some.
Qed.


Lemma starts_snoc (obs : list (Observed Any)) o :
  starts (obs ++ [o]) = (starts obs + (if is_start o then 1 else 0))%nat.
Proof.
  unfold starts. rewrite List.filter_app, length_app. simpl.
  by destruct (is_start o).
Qed.

Lemma background_snoc (obs : list (Observed Any)) o :
  List.filter is_background (obs ++ [o])
    = List.filter is_background obs ++ (if is_background o then [o] else []).
Proof. rewrite List.filter_app. simpl. by destruct (is_background o). Qed.

Ltac loops_quiet :=
  rewrite ?starts_snoc, ?background_snoc, ?length_insert, ?length_app; simpl;
  rewrite ?Nat.add_0_r, ?app_nil_r.

Lemma step_loops_inv sys sys' : step sys sys' → loops_inv sys → loops_inv sys'.
Proof.
  unfold loops_inv. intros Hstep (Hrun & Hclean & Hquiet).
  destruct Hstep as [sys ? ? ? err a Hs | sys ? ? err a Hs | sys ? ? ? err a Hs
                     | sys i l Hi | sys i l Hi
                     | sys i clk pick err p s evs Hi Hp
                     | sys i clk pick p s evs Hi Hp
                     | sys i tick Hi Hd | sys i tick Hi Hd
                     | sys i r1 r2 r3 Hi | sys i tick Hi Hd]; simpl.
  - destruct err; loops_quiet; split_and!; auto; lia.
  - loops_quiet. auto.
  - loops_quiet. auto.
  - loops_quiet. auto.
  - loops_quiet. auto.
  - apply lookup_lt_Some in Hi. unfold starts in *.
    rewrite !List.filter_app, !length_app, length_insert. simpl.
    rewrite !Nat.add_0_r. split_and!; [done | done | lia].
  - apply lookup_lt_Some in Hi. loops_quiet. split_and!; [done | done | lia].
  - loops_quiet. auto.
  - loops_quiet. auto.
  - apply lookup_lt_Some in Hi. loops_quiet. split_and!; [done | done | lia].
  - loops_quiet. auto.
Qed.

(** X21: in every execution of an agent from its construction, each
    successful [Start] has launched exactly one run loop and one cleanup
    loop, and no call of [Process] and no cleanup sweep is started before
    the first successful [Start]. *)
Theorem background_work_needs_a_successful_Start a sys :
  steps (boot a) sys →
  length (runLoops sys) = starts (observed sys) ∧
  length (cleanupLoops sys) = starts (observed sys) ∧
  (starts (observed sys) = 0%nat → List.filter is_background (observed sys) = []).
Proof.
  intros Hsteps. change (loops_inv sys).
  remember (boot a) as sys0 eqn:Hboot.
  induction Hsteps as [| sys1 sys2 sys3 _ IH Hstep].
  - subst. unfold loops_inv. simpl. done.
  - eapply step_loops_inv; [exact Hstep | by apply IH].
Qed.
End MoreAgentFacts.

(** ** What an agent with the default handlers never does *)
Section DefaultHandlerFacts.
Context {Any : Type}.
Implicit Types (a : Agent Any) (sys : System Any) (p : Processor Any).

Lemma default_handler_is_idle (h : TaskHandler Any) taskType :
  (<["system.reset" := handleReset]> (<["system.health" := handleHealthCheck]> ∅)
     : gmap string (TaskHandler Any)) !! taskType = Some h →
  ∀ c s t, h c s t = (None, s).
Proof.
  intros Hh. apply lookup_insert_Some in Hh as [[_ <-] | [_ Hh]]; [done |].
  apply lookup_insert_Some in Hh as [[_ <-] | [_ Hh]]; [done |].
  by rewrite lookup_empty in Hh.
Qed.

Lemma Process_handlers p ctx state clk pick :
  handlers (Process p ctx state clk pick).1.1.2 = handlers p.
Proof.
  unfold Process. destruct (tasks p) as [| task rest]; [done |].
  destruct (deadline_passed task (tExpiry clk)); [done |]. simpl.
  destruct (executeTask _ ctx state task clk) as [[err state'] evs].
  destruct (can_send _), (ctxDone ctx), pick; done.
Qed.

(** Handlers that leave the state alone make [Process] leave it alone. *)
Lemma Process_state_with_idle_handlers p ctx state clk pick :
  (∀ taskType (h : TaskHandler Any), handlers p !! taskType = Some h →
     ∀ c s t, h c s t = (None, s)) →
  (Process p ctx state clk pick).1.2 = state.
Proof.
  intros Hidle. unfold Process. destruct (tasks p) as [| task rest]; [done |].
  destruct (deadline_passed task (tExpiry clk)); [done |]. simpl.
  assert (Hex : ∀ p', handlers p' = handlers p →
            (executeTask p' ctx state task clk).1.2 = state).
  { intros p' Hp'. unfold executeTask. rewrite Hp'.
    destruct (handlers p !! Type_ task) as [h |] eqn:Hh; [| done].
    by rewrite (Hidle _ _ Hh). }
  specialize (Hex (with_semaphore (with_tasks p rest) (send (semaphore p))) eq_refl).
  destruct (executeTask _ ctx state task clk) as [[err state'] evs]. simpl in Hex.
  destruct (can_send _), (ctxDone ctx), pick; done.
Qed.

Lemma step_defaults_inv sys sys' : step sys sys' → defaults_inv sys → defaults_inv sys'.
Proof.
  unfold defaults_inv. intros Hstep [Hh Hn].
  destruct Hstep as [sys ? ? ? err a Hs | sys ? ? err a Hs | sys ? ? ? err a Hs
                     | sys i l Hi | sys i l Hi
                     | sys i clk pick err p s evs Hi Hp
                     | sys i clk pick p s evs Hi Hp
                     | sys i tick Hi Hd | sys i tick Hi Hd
                     | sys i r1 r2 r3 Hi | sys i tick Hi Hd]; simpl; try done.
  - unfold Start in Hs. destruct (isRunning (agent sys)); by simplify_eq/=.
  - unfold Stop in Hs. destruct (isRunning (agent sys)); by simplify_eq/=.
  - unfold Agent_AddTask in Hs. destruct (isRunning (agent sys)); by simplify_eq/=.
  - pose proof (Process_handlers (processor (agent sys)) (ctx (agent sys))
                  (state (agent sys)) clk pick) as Hh'.
    pose proof (Process_state_with_idle_handlers (processor (agent sys)) (ctx (agent sys))
                  (state (agent sys)) clk pick) as Hs'.
    rewrite Hp in Hh', Hs'. simpl in Hh', Hs'.
    split; [by rewrite Hh' |].
    rewrite Hs'; [by destruct err |].
    intros taskType h Hlook. rewrite Hh in Hlook. by eapply default_handler_is_idle.
  - pose proof (Process_handlers (processor (agent sys)) (ctx (agent sys))
                  (state (agent sys)) clk pick) as Hh'.
    pose proof (Process_state_with_idle_handlers (processor (agent sys)) (ctx (agent sys))
                  (state (agent sys)) clk pick) as Hs'.
    rewrite Hp in Hh', Hs'. simpl in Hh', Hs'.
    split; [by rewrite Hh' |].
    rewrite Hs'; [done |].
    intros taskType h Hlook. rewrite Hh in Hlook. by eapply default_handler_is_idle.
Qed.

(** X22: an agent built by [NewAgent] has no way to get another handler:
    in every execution its handlers are the two default ones, which leave
    the state alone, and the counter of processed tasks that [GetStatus]
    reports is never moved from 0, however many tasks have been run. *)
Theorem agent_never_counts_processed_tasks (c : Config) tNew a sys now :
  NewAgent c tNew = inr a →
  steps (boot a) sys →
  (∀ taskType, is_Some (handlers (processor (agent sys)) !! taskType) ↔
               taskType = "system.health" ∨ taskType = "system.reset") ∧
  TasksProcessed (state (agent sys)) = 0 ∧
  AgentStatus.TasksProcessed (GetStatus (agent sys) now) = 0.
Proof.
  intros Hnew Hsteps.
  assert (Hinv : defaults_inv sys).
  { remember (boot a) as sys0 eqn:Hboot.
    induction Hsteps as [| sys1 sys2 sys3 _ IH Hstep].
    - subst. apply NewAgent_inr in Hnew as [_ ->]. by unfold defaults_inv.
    - eapply step_defaults_inv; [exact Hstep | by apply IH]. }
  destruct Hinv as [Hh Hn]. split_and!; [| done | done].
  intros taskType. rewrite Hh. split.
  - intros [h Hlook]. apply lookup_insert_Some in Hlook as [[<- _] | [_ Hlook]]; [by right |].
    apply lookup_insert_Some in Hlook as [[<- _] | [_ Hlook]]; [by left |].
    by rewrite lookup_empty in Hlook.
  - intros [-> | ->].
    + rewrite lookup_insert_ne by done. rewrite lookup_insert_eq. eauto.
    + rewrite lookup_insert_eq. eauto.
Qed.
End DefaultHandlerFacts.

(** ** The further properties on the sample data *)
Section MoreInstances.
Import GoTime Sample Sample2.

Lemma queueAB_sorted : queue_sorted queueAB.
Proof. exact (AddTask_sorted _ taskB t1 t1). Defined.


(** C goes behind A, which has its priority and is older. *)
Example queue_ABC_order : map ID (tasks (AddTask queueAB taskC t2 t2).2) = ["B"; "A"; "C"].
Proof. reflexivity. Qed.

Lemma Process_unknown_task_type_witness :
  tasks queueOdd = [taskOdd] ∧
  handlers queueOdd !! "user.report" = None ∧
  (Process queueOdd Background state0 (at_ t2) PickFirst).1.1.1
    = Returned (Some (ErrUnknownTaskType "user.report")).
Proof.
  split; [reflexivity |]. split; [reflexivity |].
  exact (proj1 (Process_unknown_task_type queueOdd Background state0 (at_ t2) PickFirst
                  taskOdd [] eq_refl eq_refl eq_refl (or_introl eq_refl) eq_refl)).
Defined.

Lemma Process_loses_task_without_slot_witness :
  tasks queueBusy = [taskB; taskA] ∧
  can_send (semaphore queueBusy) = false ∧
  (Process queueBusy Background state0 (at_ t2) PickFirst).1.1.1 = Blocked ∧
  tasks (Process queueBusy Background state0 (at_ t2) PickFirst).1.1.2 = [taskA].
Proof.
  split; [reflexivity |]. split; [reflexivity |].
  destruct (Process_loses_task_without_slot queueBusy Background state0 (at_ t2) PickFirst
              taskB [taskA] eq_refl eq_refl (or_introl eq_refl))
    as (Hout & _ & Hq & _).
  split; [exact Hout | exact Hq].
Defined.

Lemma Process_runs_handler_under_expired_context_witness :
  tasks queueDue = [taskDue] ∧
  tExpiry (at_ t1) <= t1 <= tUntil (at_ t1) ∧
  ∃ taskCtx timeout task' result,
    (Process queueDue Background state0 (at_ t1) PickFirst).2
      = [EvAcquire; EvInvoke taskCtx timeout task'; EvResult result; EvRelease] ∧
    ctxErr taskCtx = Some ErrContextDeadlineExceeded.
Proof.
  assert (Hd : tExpiry (at_ t1) <= t1 <= tUntil (at_ t1)) by (by vm_compute).
  split; [reflexivity |]. split; [exact Hd |].
  destruct (Process_runs_handler_under_expired_context queueDue Background state0
              (at_ t1) PickFirst taskDue [] handleHealthCheck t1
              eq_refl eq_refl Hd eq_refl eq_refl eq_refl eq_refl)
    as (taskCtx & timeout & task' & result & Hevs & _ & Herr & _).
  exists taskCtx, timeout, task', result. split; [exact Hevs | exact Herr].
Defined.

Lemma GetQueueStatus_counts_tasks_witness :
  Z.of_nat (length (tasks queueAB)) <= GoInt.max_int64 ∧
  TotalTasks (GetQueueStatus queueAB) = 2 ∧
  PriorityLevels (GetQueueStatus queueAB) !! 10 = Some 1 ∧
  PriorityLevels (GetQueueStatus queueAB) !! 7 = None ∧
  TaskTypes (GetQueueStatus queueAB) !! "system.health" = Some 2.
Proof.
  assert (Hlen : Z.of_nat (length (tasks queueAB)) <= GoInt.max_int64) by (by vm_compute).
  split; [exact Hlen |].
  destruct (GetQueueStatus_counts_tasks queueAB Hlen) as (Htotal & Hprio & Htype).
  split; [exact Htotal |].
  split; [exact (Hprio 10) |].
  split; [exact (Hprio 7) | exact (Htype "system.health")].
Defined.

Lemma cleanup_makes_room_for_one_item_witness :
  maxSize storeFull = 2 ∧
  len_data (data storeFull) = 2 ∧
  len_data (data (cleanup storeFull runNextTick)) = 2 - 1.
Proof.
  split; [reflexivity |]. split; [reflexivity |].
  assert (Hcap : 1 <= maxSize storeFull) by (by vm_compute).
  assert (Hfull : maxSize storeFull
                  <= len_data (remove_expired (cleanupNow runNextTick) (data storeFull)))
    by (by vm_compute).
  exact (cleanup_makes_room_for_one_item storeFull runNextTick Hcap stateA5B_range Hfull).
Defined.

Lemma Remember_then_Recall_witness :
  0 <= MemoryTypeLongTerm <= 2 ∧
  (Recall (Remember state0 "k" "v" MemoryTypeLongTerm Second t0 t0 t0 (noRun t0)).2
     "k" MemoryTypeLongTerm t1 t1).1 = inr "v" ∧
  (Recall (Remember state0 "k" "v" MemoryTypeLongTerm Second t0 t0 t0 (noRun t0)).2
     "k" MemoryTypeLongTerm (t2 + 1) (t2 + 1)).1 = inl ErrMemoryExpired.
Proof.
  assert (Hty : 0 <= MemoryTypeLongTerm <= 2) by (by vm_compute).
  split; [exact Hty |]. split.
  - exact (proj1 (Remember_then_Recall state0 "k" "v" MemoryTypeLongTerm Second
                    t0 t0 t0 (noRun t0) t1 t1 Hty)).
  - exact (proj1 (Remember_then_Recall state0 "k" "v" MemoryTypeLongTerm Second
                    t0 t0 t0 (noRun t0) (t2 + 1) (t2 + 1) Hty)).
Defined.

Lemma Forget_then_not_found_witness :
  store_of stateA5B MemoryTypeShortTerm = Some storeFull ∧
  is_Some (data storeFull !! "a") ∧
  (Forget stateA5B "a" MemoryTypeShortTerm).1 = None ∧
  (Forget (Forget stateA5B "a" MemoryTypeShortTerm).2 "a" MemoryTypeShortTerm).1
    = Some ErrMemoryNotFound.
Proof.
  assert (Ha : is_Some (data storeFull !! "a")) by (vm_compute; eauto).
  split; [reflexivity |]. split; [exact Ha |].
  destruct (Forget_then_not_found stateA5B "a" MemoryTypeShortTerm storeFull eq_refl)
    as (_ & Hheld & _).
  destruct (Hheld Ha) as (Hnil & _ & Hagain).
  split; [exact Hnil | exact Hagain].
Defined.

Lemma memory_types_are_independent_witness :
  MemoryTypeLongTerm ≠ MemoryTypeShortTerm ∧
  store_of (remember stateA5B "c" t2 runNextTick) MemoryTypeLongTerm
    = store_of stateA5B MemoryTypeLongTerm.
Proof.
  assert (Hne : MemoryTypeLongTerm ≠ MemoryTypeShortTerm) by done.
  split; [exact Hne |].
  exact (proj1 (memory_types_are_independent stateA5B "c" "value of c"
                  MemoryTypeShortTerm 0 t2 t2 t2 runNextTick t2 t2 MemoryTypeLongTerm Hne
                  (remember stateA5B "c" t2 runNextTick) (or_introl eq_refl))).
Defined.

Lemma invalid_memory_type_is_rejected_witness :
  (7 < 0 ∨ 2 < 7) ∧
  Remember state0 "k" "v" 7 0 t0 t0 t0 (noRun t0) = (Some ErrInvalidMemoryType, state0).
Proof.
  assert (Hty : 7 < 0 ∨ 2 < 7) by (right; by vm_compute).
  split; [exact Hty |].
  exact (proj1 (invalid_memory_type_is_rejected state0 "k" "v" 7 0 t0 t0 t0 (noRun t0)
                  t0 t0 Hty)).
Defined.

Lemma lifecycle_calls_alternate_witness :
  isRunning agent0 = false ∧
  (Start agent0 t0 t0 t0).1 = None ∧
  Start (Start agent0 t0 t0 t0).2 t1 t1 t1
    = (Some ErrAgentAlreadyRunning, (Start agent0 t0 t0 t0).2).
Proof.
  split; [reflexivity |].
  destruct (lifecycle_calls_alternate agent0 t0 t0 t0 t1 t1 t1 t1 t2 t2 t2 eq_refl)
    as (_ & Hstart & Hagain & _).
  split; [exact Hstart | exact Hagain].
Defined.

Lemma restarted_agent_keeps_cancelled_context_witness :
  isRunning agentWithTask = true ∧
  isRunning (Start (Stop agentWithTask t1 t1).2 t2 t2 t2).2 = true ∧
  ctxDone (ctx (Start (Stop agentWithTask t1 t1).2 t2 t2 t2).2) = true.
Proof.
  split; [reflexivity |].
  destruct (restarted_agent_keeps_cancelled_context agentWithTask t1 t1 t2 t2 t2 eq_refl)
    as (_ & Hrun & _ & Hdone & _).
  split; [exact Hrun | exact Hdone].
Defined.

Lemma background_work_needs_a_successful_Start_witness :
  steps (boot agent0) systemStopped ∧
  length (runLoops systemStopped) = starts (observed systemStopped) ∧
  starts (observed systemStopped) = 1%nat.
Proof.
  split; [exact systemStopped_reachable |].
  split; [| reflexivity].
  exact (proj1 (background_work_needs_a_successful_Start agent0 systemStopped
                  systemStopped_reachable)).
Defined.

Lemma agent_never_counts_processed_tasks_witness :
  NewAgent (configShort 2) t0 = inr agent0 ∧
  steps (boot agent0) systemStopped ∧
  TasksProcessed (state (agent systemStopped)) = 0.
Proof.
  split; [reflexivity |]. split; [exact systemStopped_reachable |].
  destruct (agent_never_counts_processed_tasks (configShort 2) t0 agent0 systemStopped t2
              eq_refl systemStopped_reachable) as (_ & Hn & _).
  exact Hn.
Defined.
End MoreInstances.

(** ** Generated ids *)
Section GeneratedIds.
Import GoTime Sample Sample2.

(** C9 as stated fails: two different tasks without an id, added while the
    clock shows the same reading, are both queued under the same generated
    id, so the id given to the second is not fresh: a queued task has it
    already. *)
Lemma AddTask_repeats_generated_id :
  ID taskAnon1 = "" ∧ ID taskAnon2 = "" ∧
  (AddTask processor0 taskAnon1 t0 t0).1 = None ∧
  (AddTask queueAnon1 taskAnon2 t0 t0).1 = None ∧
  map ID (tasks queueAnon1) = ["task-1764403200000000000"] ∧
  ID (stamp taskAnon2 t0 t0) ∈ map ID (tasks queueAnon1) ∧
  map ID (tasks queueAnon2) = ["task-1764403200000000000"; "task-1764403200000000000"] ∧
  map Type_ (tasks queueAnon2) = ["system.reset"; "system.health"] ∧
  ¬ NoDup (map ID (tasks queueAnon2)).
Proof.
  split; [reflexivity |]. split; [reflexivity |].
  split; [reflexivity |]. split; [reflexivity |].
  assert (H1 : map ID (tasks queueAnon1) = ["task-1764403200000000000"])
    by (vm_compute; reflexivity).
  assert (H2 : map ID (tasks queueAnon2)
               = ["task-1764403200000000000"; "task-1764403200000000000"])
    by (vm_compute; reflexivity).
  split; [exact H1 |]. split.
  { rewrite H1. apply list_elem_of_singleton. vm_compute. reflexivity. }
  split; [exact H2 |]. split; [vm_compute; reflexivity |].
  rewrite H2. intros Hnd. apply NoDup_cons in Hnd as [Hnotin _].
  apply Hnotin. by apply list_elem_of_singleton.
Qed.
End GeneratedIds.
